(** * result-flow: deferred fallible computations, retry policy and periodic supervisor

  A shallow embedding of [src/src/delay.ts] and of the [ResultFlow] class
  in its latest version, the one with contexts and delay strategies
  (lines 268-538 of [src/src/promise-helpers.ts], which the test suite
  imports as [./result-flow]), followed by the properties of the
  specification that were checked against it.

  Modelling conventions.
  - JavaScript numbers that count milliseconds or attempts are integers
    ([Z]); [2 ** (attempt - 1)] is [2 ^ (attempt - 1)] for [attempt >= 1].
    Fractions, [NaN] and [Infinity] are not represented: the embedding of
    delay.ts is exact for whole numbers as long as the doubles are, that is
    for attempts up to 1024 (beyond, [2 ** (attempt - 1)] is [Infinity])
    and products within the range of doubles.
  - Code runs on one thread.  A synchronous piece of code is a function
    from the world to a completion (normal value or thrown value) and the
    next world: the monad [M].  Calling an [async] function runs its body
    and hands back a settled promise ([Async]); [await] turns a settled
    promise back into a completion.  The source awaits every promise where
    it creates it, so settling at creation keeps the order of effects.
  - A thrown value is either the library's [ResultInterruption] or any
    other value (a fault of user code).  Callbacks are user code: they run
    in [M], so they may have effects and may throw.
  - Every [ResultFlow] object owns one mutable field, [context]; the world
    maps the identity of the object to the current value of that field
    (absent = [undefined]).  [new ResultFlow(...)] takes the identity of
    the fresh object as a parameter.
  - The interval timers of the runtime are a table in the world; the
    callback registered with [setInterval] is kept in the session record,
    and [fire] is the runtime invoking it when the timer is still armed.
    A callback runs to completion before the next timer event. *)

From Stdlib Require Import ZArith Lia.
From stdpp Require Import base option list strings gmap.

Local Open Scope Z_scope.

(** ** delay.ts *)

Module Delay.

Inductive DelayStrategy : Type :=
| immediate
| exponentialBackoff (baseDelayMs : Z) (maxDelayMs : option Z).

(** Truthiness of an optional number: [undefined] and [0] are falsy. *)
Definition truthy (n : option Z) : bool :=
  match n with
  | Some v => negb (v =? 0)
  | None => false
  end.

Definition calculateExponentialDelay
    (attempt baseDelay : Z) (maxDelay : option Z) : Z :=
  let delay := baseDelay * 2 ^ (attempt - 1) in
  match maxDelay with
  | Some m => if truthy maxDelay then Z.min delay m else delay
  | None => delay
  end.

Definition calculateDelay (retryStrategy : DelayStrategy) (attempt : Z) : Z :=
  match retryStrategy with
  | immediate => 0
  | exponentialBackoff baseDelayMs maxDelayMs =>
      calculateExponentialDelay attempt baseDelayMs maxDelayMs
  end.

(** What section 4.1 of the specification asks of the exponential strategy:
    the cap applies whenever a maximum is present. *)
Definition specifiedDelay (retryStrategy : DelayStrategy) (attempt : Z) : Z :=
  match retryStrategy with
  | immediate => 0
  | exponentialBackoff base (Some m) => Z.min (base * 2 ^ (attempt - 1)) m
  | exponentialBackoff base None => base * 2 ^ (attempt - 1)
  end.

End Delay.

(** ** The runtime: worlds, completions, promises *)

(** The types the development is parametric in: [FailureT], the failure
    values carried by results; [FaultT], any other value that user code
    throws; [ContextT], the context records, with [emptyContext] the record
    [{}]; [UserState], the state that user code reads and writes. *)
Class Params : Type := {
  FailureT : Type;
  FaultT : Type;
  ContextT : Type;
  UserState : Type;
  emptyContext : ContextT
}.

Section Runtime.

Context {P : Params}.

Record World : Type := mkWorld {
  user : UserState;
  contexts : gmap positive ContextT;
  intervals : gmap nat Z;
  nextInterval : nat;
  slept : list Z
}.

Inductive Thrown : Type :=
| ResultInterruption (error : FailureT)
| Fault (fault : FaultT).

Inductive Completion (A : Type) : Type :=
| Normal (value : A)
| Throw (thrown : Thrown).

Inductive Promise (A : Type) : Type :=
| Fulfilled (value : A)
| Rejected (reason : Thrown).

Definition M (A : Type) : Type := World -> Completion A * World.

Definition Async (A : Type) : Type := World -> Promise A * World.

Definition ret {A} (a : A) : M A := fun w => (Normal _ a, w).

Definition bind {A B} (m : M A) (k : A -> M B) : M B :=
  fun w =>
    match m w with
    | (Normal _ a, w') => k a w'
    | (Throw _ t, w') => (Throw _ t, w')
    end.

Definition throw {A} (t : Thrown) : M A := fun w => (Throw _ t, w).

(** [try { body } catch (e) { handler(e) }] *)
Definition tryCatch {A} (body : M A) (handler : Thrown -> M A) : M A :=
  fun w =>
    match body w with
    | (Normal _ a, w') => (Normal _ a, w')
    | (Throw _ t, w') => handler t w'
    end.

(** The call of an [async] function: the body runs, and its completion
    settles the promise that the call returns. *)
Definition async {A} (body : M A) : Async A :=
  fun w =>
    match body w with
    | (Normal _ a, w') => (Fulfilled _ a, w')
    | (Throw _ t, w') => (Rejected _ t, w')
    end.

(** A call that returns a promise, used as an expression. *)
Definition call {A} (a : Async A) : M (Promise A) :=
  fun w => let (p, w') := a w in (Normal _ p, w').

Definition await {A} (p : Promise A) : M A :=
  fun w =>
    match p with
    | Fulfilled _ a => (Normal _ a, w)
    | Rejected _ t => (Throw _ t, w)
    end.

(** [promise.then(f)] *)
Definition then_ {A B} (p : Promise A) (f : A -> M B) : Async B :=
  async (bind (await p) f).

(** [f?.(x)] for an optional callback. *)
Definition optionalCall {X} (f : option (X -> M unit)) (x : X) : M unit :=
  match f with
  | Some g => g x
  | None => ret tt
  end.

(** The [context] field of the object [l]. *)
Definition readContext (l : positive) : M (option ContextT) :=
  fun w => (Normal _ (contexts w !! l), w).

Definition setContext (l : positive) (c : option ContextT) (w : World) : World :=
  mkWorld (user w) (partial_alter (fun _ => c) l (contexts w))
          (intervals w) (nextInterval w) (slept w).

Definition writeContext (l : positive) (c : option ContextT) : M unit :=
  fun w => (Normal _ tt, setContext l c w).

(** Interval timers. *)
Definition setInterval (ms : Z) : M nat :=
  fun w =>
    (Normal _ (nextInterval w),
     mkWorld (user w) (contexts w)
             (<[nextInterval w := ms]> (intervals w))
             (S (nextInterval w)) (slept w)).

Definition cleared (id : nat) (w : World) : World :=
  mkWorld (user w) (contexts w) (delete id (intervals w))
          (nextInterval w) (slept w).

Definition clearInterval (id : nat) : M unit :=
  fun w => (Normal _ tt, cleared id w).

(** [wait(ms)] of delay.ts: a promise settled once [ms] have elapsed; the
    world records the waits. *)
Definition wait (ms : Z) : Async unit :=
  fun w =>
    (Fulfilled _ tt,
     mkWorld (user w) (contexts w) (intervals w) (nextInterval w)
             (slept w ++ [ms])).

End Runtime.

Arguments Normal {P A} value.
Arguments Throw {P A} thrown.
Arguments Fulfilled {P A} value.
Arguments Rejected {P A} reason.

Declare Scope flow_scope.
Delimit Scope flow_scope with flow.
Notation "x <- m ;; k" := (bind m (fun x => k))
  (at level 20, m at level 99, k at level 200, only parsing)
  : flow_scope.
Notation "'do' m ;; k" := (bind m (fun _ => k))
  (at level 20, m at level 99, k at level 200, only parsing)
  : flow_scope.

Local Open Scope flow_scope.

(** ** Results (neverthrow) and promise-helpers.ts *)

Section Results.

Context {P : Params}.

Inductive Result (A : Type) : Type :=
| Ok (value : A)
| Err (error : FailureT).

(** [result.mapErr(mapper)]: the mapper is user code and runs only on a
    failure. *)
Definition mapErr {A} (result : Result A) (mapper : FailureT -> M FailureT)
    : M (Result A) :=
  match result with
  | Ok _ value => ret (Ok _ value)
  | Err _ error => error' <- mapper error ;; ret (Err _ error')
  end.

(** [result?.error]: the [error] property exists on a failure only. *)
Definition errorOf {A} (result : Result A) : option FailureT :=
  match result with
  | Ok _ _ => None
  | Err _ error => Some error
  end.

End Results.

Arguments Ok {P A} value.
Arguments Err {P A} error.

Module PromiseHelpers.

Section PromiseHelpers.

Context {P : Params}.

Definition mapError {A} (promise : Promise (Result A))
    (mapper : FailureT -> M FailureT) : Async (Result A) :=
  async (result <- await promise ;; mapErr result mapper).

End PromiseHelpers.

End PromiseHelpers.

(** ** result-flow.ts *)

Module ResultFlow.

Section ResultFlow.

Context {P : Params}.

Record TryToOptions : Type := {
  mapErrorOption : option (FailureT -> M FailureT)
}.

(** The [helpers] object handed to a builder.  A plain [Result] passed to
    [tryTo] is the promise already fulfilled with it ([Promise.resolve]). *)
Record ResultFlowHelpers : Type := {
  tryTo : forall A : Type,
      Promise (Result A) -> option TryToOptions -> M (Promise A);
  fail : forall A : Type, FailureT -> M A
}.

Definition unwrap {A} (result : Result A) : M A :=
  match result with
  | Ok value => ret value
  | Err error => throw (ResultInterruption error)
  end.

Record Extras : Type := { context : option ContextT }.

(** A [ResultFlow] object: [self] is its identity (where its [context]
    field lives), [runPromise] the builder given to the constructor. *)
Record ResultFlow (A : Type) : Type := {
  self : positive;
  runPromise : ResultFlowHelpers -> Extras -> M (Promise A)
}.

Arguments self {A} _.
Arguments runPromise {A} _ _ _.

Definition helpers : ResultFlowHelpers := {|
  tryTo := fun A result options =>
    match options ≫= mapErrorOption with
    | Some mapper =>
        mapped <- call (PromiseHelpers.mapError result mapper) ;;
        call (then_ mapped unwrap)
    | None => call (then_ result unwrap)
    end;
  fail := fun A error => throw (ResultInterruption error)
|}.

Definition of_ {A} (l : positive)
    (builderFunction : ResultFlowHelpers -> Extras -> M (Promise A))
    : ResultFlow A :=
  {| self := l; runPromise := builderFunction |}.

(** The shapes a combinator accepts from its callback: a [ResultFlow], or a
    [Result], [Promise<Result>] or [ResultAsync] (all three a promise of a
    result once resolved).  Where the source branches on
    [ResultFlow.isResultFlow(x)], the embedding matches on the shape. *)
Inductive PolymorphicResult (A : Type) : Type :=
| flowValue (flow : ResultFlow A)
| resultValue (result : Promise (Result A)).

Arguments flowValue {A} flow.
Arguments resultValue {A} result.

Definition isResultFlow {A} (value : PolymorphicResult A) : bool :=
  match value with
  | flowValue _ => true
  | resultValue _ => false
  end.

(** The argument of [from] and [lift]: a value, or a zero-argument function
    returning one. *)
Inductive Liftable (A : Type) : Type :=
| liftValue (value : Promise (Result A))
| liftThunk (thunk : unit -> M (Promise (Result A))).

Arguments liftValue {A} value.
Arguments liftThunk {A} thunk.

Definition from {A} (l : positive) (value : Liftable A) : ResultFlow A :=
  of_ l (fun h _ =>
    call (async (
      match value with
      | liftThunk thunk =>
          produced <- thunk tt ;;
          unwrapped <- tryTo h A produced None ;;
          await unwrapped
      | liftValue result =>
          unwrapped <- tryTo h A result None ;;
          await unwrapped
      end))).

Definition lift {A} (l : positive) (value : Liftable A) : ResultFlow A :=
  from l value.

Inductive RunArgs : Type :=
| noArgs
| withExtras (extras : Extras).

(** [const [{ context } = { context: {} as C }] = args]: without an
    argument the context is the empty record; with one it is the [context]
    field of the argument, whatever that is. *)
Definition contextOf (args : RunArgs) : option ContextT :=
  match args with
  | noArgs => Some emptyContext
  | withExtras extras => context extras
  end.

Definition run {A} (this : ResultFlow A) (args : RunArgs) : Async (Result A) :=
  async (
    let context := contextOf args in
    tryCatch
      (do writeContext (self this) context ;;
       promise <- runPromise this helpers {| context := context |} ;;
       value <- await promise ;;
       ret (Ok value))
      (fun e =>
         match e with
         | ResultInterruption error => ret (Err error)
         | Fault _ => throw e
         end)).

Definition map {A A2} (l : positive) (f : A -> Extras -> M A2)
    (this : ResultFlow A) : ResultFlow A2 :=
  of_ l (fun h extras =>
    call (async (
      ran <- call (run this (withExtras extras)) ;;
      unwrapped <- tryTo h A ran None ;;
      value <- await unwrapped ;;
      f value extras))).

Definition mapError {A} (l : positive) (f : FailureT -> Extras -> M FailureT)
    (this : ResultFlow A) : ResultFlow A :=
  of_ l (fun h extras =>
    call (async (
      ran <- call (run this (withExtras extras)) ;;
      result <- await ran ;;
      match result with
      | Err error => mapped <- f error extras ;; fail h A mapped
      | Ok value => ret value
      end))).

Definition chain {A A2} (l : positive)
    (f : A -> Extras -> M (PolymorphicResult A2))
    (this : ResultFlow A) : ResultFlow A2 :=
  of_ l (fun h extras =>
    call (async (
      ran <- call (run this (withExtras extras)) ;;
      unwrapped <- tryTo h A ran None ;;
      result <- await unwrapped ;;
      fResult <- f result extras ;;
      match fResult with
      | flowValue flow =>
          ran2 <- call (run flow (withExtras extras)) ;;
          unwrapped2 <- tryTo h A2 ran2 None ;;
          await unwrapped2
      | resultValue promise =>
          unwrapped2 <- tryTo h A2 promise None ;;
          await unwrapped2
      end))).

Definition ifSuccess {A} (l : positive) (f : A -> Extras -> M unit)
    (this : ResultFlow A) : ResultFlow A :=
  of_ l (fun h extras =>
    call (async (
      ran <- call (run this (withExtras {| context := context extras |})) ;;
      unwrapped <- tryTo h A ran None ;;
      result <- await unwrapped ;;
      do f result {| context := context extras |} ;;
      ret result))).

Definition ifFailure {A} (l : positive) (f : FailureT -> Extras -> M unit)
    (this : ResultFlow A) : ResultFlow A :=
  of_ l (fun h extras =>
    call (async (
      ran <- call (run this (withExtras extras)) ;;
      result <- await ran ;;
      match result with
      | Err error => do f error extras ;; fail h A error
      | Ok value => ret value
      end))).

Definition orElse {A} (l : positive)
    (alternative : FailureT -> Extras -> M (PolymorphicResult A))
    (this : ResultFlow A) : ResultFlow A :=
  of_ l (fun h extras =>
    call (async (
      ran <- call (run this (withExtras extras)) ;;
      result <- await ran ;;
      match result with
      | Ok value => ret value
      | Err error =>
          alternativeResult <- alternative error extras ;;
          match alternativeResult with
          | flowValue flow =>
              ran2 <- call (run flow (withExtras extras)) ;;
              unwrapped <- tryTo h A ran2 None ;;
              await unwrapped
          | resultValue promise =>
              unwrapped <- tryTo h A promise None ;;
              await unwrapped
          end
      end))).

(** The configuration of [retryPolicy]; an absent field takes its default:
    [condition = () => true], [maxRetries = 1],
    [retryStrategy = { type: "immediate" }]. *)
Record RetryConfig : Type := {
  beforeRetry : option (FailureT -> Z -> M unit);
  condition : option (FailureT -> M bool);
  maxRetries : option Z;
  retryStrategy : option Delay.DelayStrategy
}.

Definition conditionOf (config : RetryConfig) : FailureT -> M bool :=
  default (fun _ => ret true) (condition config).

Definition maxRetriesOf (config : RetryConfig) : Z :=
  default 1 (maxRetries config).

Definition retryStrategyOf (config : RetryConfig) : Delay.DelayStrategy :=
  default Delay.immediate (retryStrategy config).

(** The body of the builder of [retryPolicy]:
    [for (let i = 0; i < maxRetries; i++) { ... } return tryTo(this.run(extras))].
    [remaining] counts the iterations the loop test still grants, which is
    [maxRetries - i] when positive and [0] otherwise. *)
Fixpoint retryLoop {A} (h : ResultFlowHelpers) (config : RetryConfig)
    (this : ResultFlow A) (extras : Extras) (remaining : nat) (i : Z) : M A :=
  match remaining with
  | O =>
      ran <- call (run this (withExtras extras)) ;;
      unwrapped <- tryTo h A ran None ;;
      await unwrapped
  | S remaining' =>
      ran <- call (run this (withExtras extras)) ;;
      result <- await ran ;;
      match result with
      | Err error =>
          shouldRetry <- conditionOf config error ;;
          if (shouldRetry : bool) then
            do match beforeRetry config with
               | Some before => before error (i + 1)
               | None => ret tt
               end ;;
            do (let delay :=
                  Delay.calculateDelay (retryStrategyOf config) (i + 1) in
                if 0 <? delay
                then waited <- call (wait delay) ;; await waited
                else ret tt) ;;
            retryLoop h config this extras remaining' (i + 1)
          else fail h A error
      | Ok value => ret value
      end
  end.

Definition retryPolicy {A} (l : positive) (config : RetryConfig)
    (this : ResultFlow A) : ResultFlow A :=
  of_ l (fun h extras =>
    call (async (
      retryLoop h config this extras (Z.to_nat (maxRetriesOf config)) 0))).

(** The argument of [onInterruption]. *)
Inductive Interruption : Type :=
| failure (error : FailureT) (recoveryError : option FailureT)
| aborted.

Record PeriodicConfig (R : Type) : Type := {
  recoveryAction : option (FailureT -> M (PolymorphicResult R));
  onInterruption : option (Interruption -> M unit);
  interval : Z
}.

Arguments recoveryAction {R} _.
Arguments onInterruption {R} _.
Arguments interval {R} _.

(** The [if (result.isErr()) { ... }] block of the callback below: the
    optional recovery, then the stop unless the recovery succeeded. *)
Definition recoverOrStop {A R} (this : ResultFlow A)
    (config : PeriodicConfig R) (intervalId : nat) (error : FailureT)
    : M unit :=
  recoveryResult <-
    match recoveryAction config with
    | Some recover =>
        recoveryResultPromise <- recover error ;;
        recovered <-
          match recoveryResultPromise with
          | flowValue flow =>
              current <- readContext (self this) ;;
              ran <- call (run flow (withExtras {| context := current |})) ;;
              await ran
          | resultValue promise => await promise
          end ;;
        ret (Some recovered)
    | None => ret None
    end ;;
  match recoveryResult with
  | Some (Ok _) => ret tt
  | _ =>
      do clearInterval intervalId ;;
      optionalCall (onInterruption config)
                   (failure error (recoveryResult ≫= errorOf))
  end.

(** The callback that [runPeriodically] registers with [setInterval]. *)
Definition tick {A R} (this : ResultFlow A) (config : PeriodicConfig R)
    (intervalId : nat) : Async unit :=
  async (
    current <- readContext (self this) ;;
    ran <- call (run this (withExtras {| context := current |})) ;;
    result <- await ran ;;
    match result with
    | Err error => recoverOrStop this config intervalId error
    | Ok _ => ret tt
    end).

(** A periodic session: what [runPeriodically] leaves behind.  The caller
    receives [interrupt]; [intervalId] and [onTick] are the entry of the
    runtime's timer table. *)
Record PeriodicSession : Type := {
  intervalId : nat;
  onTick : Async unit;
  interrupt : M unit
}.

Definition runPeriodically {A R} (config : PeriodicConfig R)
    (this : ResultFlow A) : M PeriodicSession :=
  id <- setInterval (interval config) ;;
  ret {| intervalId := id;
         onTick := tick this config id;
         interrupt :=
           do clearInterval id ;;
           optionalCall (onInterruption config) aborted |}.

(** The runtime reaching the next multiple of the interval: the callback
    runs if the timer is still in the table, and its promise is dropped. *)
Definition fire (session : PeriodicSession) : M unit :=
  fun w =>
    match intervals w !! intervalId session with
    | Some _ => let (_, w') := onTick session w in (Normal tt, w')
    | None => (Normal tt, w)
    end.

Fixpoint fireTimes (session : PeriodicSession) (n : nat) : M unit :=
  match n with
  | O => ret tt
  | S n' => do fire session ;; fireTimes session n'
  end.

(** What [await generator.next(value)] gives for the async generator handed
    to [gen]: the generator has returned, or it is suspended at a [yield]
    and [resume] is its next [generator.next(value)].  A generator is
    represented by its first [generator.next()]; only generators that return
    after finitely many yields are represented. *)
#[warnings="-register-all"]
Inductive IteratorResult (V A : Type) : Type :=
| iteratorDone (value : A)
| iteratorYield (value : PolymorphicResult V)
                (resume : V -> Async (IteratorResult V A)).

Arguments iteratorDone {V A} value.
Arguments iteratorYield {V A} value resume.

(** The [while (!result.done) { ... }] loop of [gen], from the iterator
    result it starts with. *)
Fixpoint genLoop {V A} (h : ResultFlowHelpers) (extras : Extras)
    (result : IteratorResult V A) : M A :=
  match result with
  | iteratorDone value => ret value
  | iteratorYield yielded resume =>
      value <-
        match yielded with
        | flowValue flow =>
            ran <- call (run flow (withExtras extras)) ;;
            unwrapped <- tryTo h V ran None ;;
            await unwrapped
        | resultValue promise =>
            unwrapped <- tryTo h V promise None ;;
            await unwrapped
        end ;;
      (* result = await generator.next(value), written out so that the
         recursion is structural *)
      fun w =>
        match resume value w with
        | (Fulfilled result', w') => genLoop h extras result' w'
        | (Rejected reason, w') => (Throw reason, w')
        end
  end.

Definition gen {V A} (l : positive)
    (f : Extras -> M (Async (IteratorResult V A))) : ResultFlow A :=
  of_ l (fun h extras =>
    call (async (
      generator <- f extras ;;
      first <- call generator ;;
      result <- await first ;;
      genLoop h extras result))).

(** What the loop of [gen] awaits for a yielded value: the run of a flow
    with the extras, or the result as it is. *)
Definition yieldedOutcome {V} (extras : Extras)
    (yielded : PolymorphicResult V) (w : World)
    : Promise (Result V) * World :=
  match yielded with
  | flowValue flow => run flow (withExtras extras) w
  | resultValue promise => (promise, w)
  end.

(** [resumed extras result w result' w']: from the iterator result
    [result] in the world [w], the loop of [gen] gets to [result'] in [w']
    through yields that all succeeded, each followed by the resumption of
    the generator with the value. *)
Inductive resumed {V A} (extras : Extras)
    : IteratorResult V A -> World -> IteratorResult V A -> World -> Prop :=
| resumed_here (result : IteratorResult V A) (w : World) :
    resumed extras result w result w
| resumed_next (yielded : PolymorphicResult V)
    (resume : V -> Async (IteratorResult V A)) (value : V)
    (next result' : IteratorResult V A) (w w1 w2 w' : World) :
    yieldedOutcome extras yielded w = (Fulfilled (Ok value), w1) ->
    resume value w1 = (Fulfilled next, w2) ->
    resumed extras next w2 result' w' ->
    resumed extras (iteratorYield yielded resume) w result' w'.

(** [*[Symbol.iterator]() { return yield this }]: what [yield* flow]
    iterates; it yields the flow and returns the value sent back. *)
Definition iterator {A} (this : ResultFlow A) : IteratorResult A A :=
  iteratorYield (flowValue this) (fun value => async (ret (iteratorDone value))).

End ResultFlow.

Arguments self {P A} _.
Arguments runPromise {P A} _ _ _.
Arguments flowValue {P A} flow.
Arguments resultValue {P A} result.
Arguments liftValue {P A} value.
Arguments liftThunk {P A} thunk.
Arguments recoveryAction {P R} _.
Arguments onInterruption {P R} _.
Arguments interval {P R} _.
Arguments iteratorDone {P V A} value.
Arguments iteratorYield {P V A} value resume.

End ResultFlow.

(** ** Observations of the user state

    Counting how often something is called needs a probe: an observation
    [obs] of the user state that the call bumps and that nothing else
    changes.  [kept obs c] says that the computation [c] leaves [obs] as it
    found it; [bumped obs c] that it adds exactly one. *)

Section Observations.

Context {P : Params}.

Definition kept {T X : Type} (obs : UserState -> T)
    (c : World -> X * World) : Prop :=
  forall w : World, obs (user (c w).2) = obs (user w).

Definition bumped {X : Type} (obs : UserState -> nat)
    (c : World -> X * World) : Prop :=
  forall w : World, obs (user (c w).2) = S (obs (user w)).

(** What [run] makes of the completion of a builder: a value is a
    success, the interruption signal a failure, any other thrown value
    rejects. *)
Definition settle {A : Type} (c : Completion A * World)
    : Promise (Result A) * World :=
  match c with
  | (Normal value, w) => (Fulfilled (Ok value), w)
  | (Throw (ResultInterruption error), w) => (Fulfilled (Err error), w)
  | (Throw (Fault fault), w) => (Rejected (Fault fault), w)
  end.

End Observations.

(** ** Probes

    A concrete instance in the manner of the test suite: failures, faults
    and contexts are strings, and the user state counts the calls of a
    mocked step and logs the calls of the mocked callbacks. *)

Module Probe.

Inductive Event : Type :=
| called (name : string)
| calledWithContext (context : option string)
| calledBeforeRetry (error : string) (retryNumber : Z)
| calledOnInterruption (cause : string) (error recoveryError : option string).

Record State : Type := {
  stepCalls : nat;
  events : list Event
}.

Definition params : Params := {|
  FailureT := string;
  FaultT := string;
  ContextT := string;
  UserState := State;
  emptyContext := ""%string
|}.

Section Probe.

#[local] Existing Instance params.

Import ResultFlow.

Definition initial : World :=
  mkWorld {| stepCalls := 0; events := [] |} ∅ ∅ 0 [].

(** A [mock.fn()] that only logs that it was called. *)
Definition logs (e : Event) : M unit :=
  fun w =>
    (Normal tt,
     mkWorld {| stepCalls := stepCalls (user w);
                events := events (user w) ++ [e] |}
             (contexts w) (intervals w) (nextInterval w) (slept w)).

(** A mocked step: counts the call and returns [result]. *)
Definition step {A} (result : Result A) : unit -> M (Promise (Result A)) :=
  fun _ w =>
    (Normal (Fulfilled result),
     mkWorld {| stepCalls := S (stepCalls (user w));
                events := events (user w) |}
             (contexts w) (intervals w) (nextInterval w) (slept w)).

(** A mocked step whose result depends on how often it was called before,
    as [mock.fn(impl, onceImpl, { times })] does. *)
Definition stepByCall {A} (result : nat -> Result A)
    : unit -> M (Promise (Result A)) :=
  fun _ w => step (result (stepCalls (user w))) tt w.

Definition interruptionEvent (param : Interruption) : Event :=
  match param with
  | failure error recoveryError =>
      calledOnInterruption "failure" (Some error) recoveryError
  | aborted => calledOnInterruption "aborted" None None
  end.

Definition onInterruptionMock (param : Interruption) : M unit :=
  logs (interruptionEvent param).

Definition beforeRetryMock (error : string) (retryNumber : Z) : M unit :=
  logs (calledBeforeRetry error retryNumber).

(** The retry numbers that [beforeRetryMock] was called with, in order. *)
Definition retryNumbers (u : State) : list Z :=
  omap (fun e => match e with
                 | calledBeforeRetry _ retryNumber => Some retryNumber
                 | _ => None
                 end) (events u).

(** The arguments that [onInterruptionMock] was called with, in order. *)
Definition interruptions (u : State) : list Event :=
  omap (fun e => match e with
                 | calledOnInterruption _ _ _ => Some e
                 | _ => None
                 end) (events u).

End Probe.

End Probe.

(** * Properties *)

(** ** Evaluation: [run], [tryTo], [fail] *)

Section Evaluation.

Context {P : Params}.

Import ResultFlow.

Lemma bind_assoc {A B D} (m : M A) (k : A -> M B) (k' : B -> M D) (w : World) :
  bind (bind m k) k' w = bind m (fun a => bind (k a) k') w.
Proof. unfold bind. destruct (m w) as [[a|t] w']; reflexivity. Qed.

(** Awaiting the promise of an [async] call is running its body. *)
Lemma await_call_async {A} (body : M A) (w : World) :
  (promise <- call (async body) ;; await promise) w = body w.
Proof.
  unfold bind, call, async, await.
  destruct (body w) as [[a|t] w']; reflexivity.
Qed.

(** [await tryTo(promise)] returns the value of a success, throws the
    interruption signal for a failure, and rethrows what rejected the
    promise. *)
Lemma await_tryTo {A} (promise : Promise (Result A)) (w : World) :
  (unwrapped <- tryTo helpers A promise None ;; await unwrapped) w =
  match promise with
  | Fulfilled (Ok value) => (Normal value, w)
  | Fulfilled (Err error) => (Throw (ResultInterruption error), w)
  | Rejected reason => (Throw reason, w)
  end.
Proof. destruct promise as [[value|error]|reason]; reflexivity. Qed.

(** The same with a [mapError] option: the mapper runs on the failure, and
    the interruption carries what it returns. *)
Lemma await_tryTo_mapError {A} (promise : Promise (Result A))
    (options : TryToOptions) (mapper : FailureT -> M FailureT) (w : World) :
  mapErrorOption options = Some mapper ->
  (unwrapped <- tryTo helpers A promise (Some options) ;; await unwrapped) w =
  match promise with
  | Fulfilled (Ok value) => (Normal value, w)
  | Fulfilled (Err error) =>
      match mapper error w with
      | (Normal error', w') => (Throw (ResultInterruption error'), w')
      | (Throw reason, w') => (Throw reason, w')
      end
  | Rejected reason => (Throw reason, w)
  end.
Proof.
  intros Hmapper. unfold bind, helpers, tryTo. simpl. rewrite Hmapper.
  destruct promise as [[value|error]|reason]; try reflexivity.
  unfold call, PromiseHelpers.mapError, async, bind, await, mapErr, then_.
  simpl. unfold bind.
  destruct (mapper error w) as [[error'|reason] w']; reflexivity.
Qed.

(** [run] in terms of the evaluation of the builder: a value becomes a
    success, the interruption signal a failure, and any other thrown value
    rejects the promise. *)
Lemma run_of {A} (l : positive)
    (builder : ResultFlowHelpers -> Extras -> M (Promise A))
    (args : RunArgs) (w : World) :
  run (of_ l builder) args w =
  match (promise <- builder helpers {| context := contextOf args |} ;;
         await promise) (setContext l (contextOf args) w) with
  | (Normal value, w') => (Fulfilled (Ok value), w')
  | (Throw (ResultInterruption error), w') => (Fulfilled (Err error), w')
  | (Throw (Fault fault), w') => (Rejected (Fault fault), w')
  end.
Proof.
  unfold run, async, tryCatch, bind, writeContext, of_, ret, throw. simpl.
  destruct (builder helpers _ _) as [[promise|[error|fault]] w']; try reflexivity.
  destruct promise as [value|[error|fault]]; reflexivity.
Qed.

(** [run] never rejects with the interruption signal. *)
Lemma run_never_interrupted {A} (this : ResultFlow A) (args : RunArgs)
    (w w' : World) (error : FailureT) :
  run this args w <> (Rejected (ResultInterruption error), w').
Proof.
  destruct this as [l builder]. change {| self := l; runPromise := builder |}
    with (of_ l builder). rewrite run_of.
  destruct (bind _ _ _) as [[value|[e|f]] w1]; congruence.
Qed.

End Evaluation.

(** ** Short-circuit on failure, faults left alone *)

Section ShortCircuit.

Context {P : Params} {X Y A : Type}.

Import ResultFlow.

Variables (l : positive) (args : RunArgs) (w : World).

Let extras : Extras := {| context := contextOf args |}.
Let w0 : World := setContext l (contextOf args) w.

(** A builder that reaches [await tryTo(failing)] stops there: the flow
    fails with the error (after [mapError], when given), in the world the
    builder had reached. *)
Lemma tryTo_failure_aborts
    (before : ResultFlowHelpers -> Extras -> M X)
    (failing : X -> Promise (Result Y)) (options : option TryToOptions)
    (after : X -> Y -> M A) (x : X) (error error' : FailureT)
    (w1 w2 : World) :
  before helpers extras w0 = (Normal x, w1) ->
  failing x = Fulfilled (Err error) ->
  default ret (options ≫= mapErrorOption) error w1 = (Normal error', w2) ->
  run (of_ l (fun h ex => call (async (
         x <- before h ex ;;
         unwrapped <- tryTo h Y (failing x) options ;;
         y <- await unwrapped ;;
         after x y)))) args w
  = (Fulfilled (Err error'), w2).
Proof.
  intros Hbefore Hfailing Hmapped.
  rewrite run_of, await_call_async. fold extras w0.
  unfold bind at 1. rewrite Hbefore, Hfailing.
  rewrite <- bind_assoc. unfold bind at 1.
  destruct options as [options|]; simpl in Hmapped.
  - destruct (mapErrorOption options) as [mapper|] eqn:Hmapper;
      simpl in Hmapped.
    + rewrite (await_tryTo_mapError _ options mapper) by exact Hmapper.
      rewrite Hmapped. reflexivity.
    + unfold ret in Hmapped. injection Hmapped as -> ->.
      unfold helpers, tryTo, bind. simpl. rewrite Hmapper. reflexivity.
  - unfold ret in Hmapped. injection Hmapped as -> ->.
    rewrite await_tryTo. reflexivity.
Qed.

(** The same for [fail(error)]. *)
Lemma fail_aborts
    (before : ResultFlowHelpers -> Extras -> M X)
    (after : X -> Y -> M A) (x : X) (error : FailureT) (w1 : World) :
  before helpers extras w0 = (Normal x, w1) ->
  run (of_ l (fun h ex => call (async (
         x <- before h ex ;;
         y <- fail h Y error ;;
         after x y)))) args w
  = (Fulfilled (Err error), w1).
Proof.
  intros Hbefore. rewrite run_of, await_call_async. fold extras w0.
  unfold bind at 1. rewrite Hbefore. reflexivity.
Qed.

(** A fault, thrown by the builder or rejecting the promise it returns,
    rejects the promise of [run]. *)
Lemma fault_escapes_run
    (builder : ResultFlowHelpers -> Extras -> M (Promise A))
    (fault : FaultT) (w1 : World) :
  (promise <- builder helpers extras ;; await promise) w0
    = (Throw (Fault fault), w1) ->
  run (of_ l builder) args w = (Rejected (Fault fault), w1).
Proof.
  intros Hfault. rewrite run_of. fold extras w0. rewrite Hfault. reflexivity.
Qed.

(** C1.  When a builder awaits [tryTo] on a failing result, or calls
    [fail(e)], nothing of the builder after that point runs, and [run]
    resolves to the failure carrying the error (transformed by [mapError]
    when that option is given); a thrown value other than the interruption
    signal is not converted: the promise of [run] rejects with it. *)
Theorem interruption_aborts_builder_and_faults_escape :
  (forall (before : ResultFlowHelpers -> Extras -> M X)
          (failing : X -> Promise (Result Y)) (options : option TryToOptions)
          (after : X -> Y -> M A) (x : X) (error error' : FailureT)
          (w1 w2 : World),
      before helpers extras w0 = (Normal x, w1) ->
      failing x = Fulfilled (Err error) ->
      default ret (options ≫= mapErrorOption) error w1 = (Normal error', w2) ->
      run (of_ l (fun h ex => call (async (
             x <- before h ex ;;
             unwrapped <- tryTo h Y (failing x) options ;;
             y <- await unwrapped ;;
             after x y)))) args w
      = (Fulfilled (Err error'), w2))
  /\ (forall (before : ResultFlowHelpers -> Extras -> M X)
             (after : X -> Y -> M A) (x : X) (error : FailureT) (w1 : World),
      before helpers extras w0 = (Normal x, w1) ->
      run (of_ l (fun h ex => call (async (
             x <- before h ex ;;
             y <- fail h Y error ;;
             after x y)))) args w
      = (Fulfilled (Err error), w1))
  /\ (forall (builder : ResultFlowHelpers -> Extras -> M (Promise A))
             (fault : FaultT) (w1 : World),
      (promise <- builder helpers extras ;; await promise) w0
        = (Throw (Fault fault), w1) ->
      run (of_ l builder) args w = (Rejected (Fault fault), w1)).
Proof.
  split; [|split].
  - intros. eapply tryTo_failure_aborts; eassumption.
  - intros. eapply fail_aborts; eassumption.
  - intros. apply fault_escapes_run; assumption.
Qed.

End ShortCircuit.

Section ShortCircuitWitness.

#[local] Existing Instance Probe.params.

Import ResultFlow Probe.

(** The end-to-end scenario of the test suite: the first step is called,
    the second fails, the probe placed after it is never called. *)
Lemma interruption_aborts_builder_witness :
  (exists w' : World,
      run (of_ 1%positive (fun h ex => call (async (
             x <- (fun _ _ => do logs (called "findById") ;; ret 7%nat) h ex ;;
             unwrapped <- tryTo h nat
               ((fun _ => Fulfilled (Err "not-found"%string)) x) None ;;
             y <- await unwrapped ;;
             (fun _ y => do logs (called "probe") ;; ret y) x y))))
          noArgs initial
      = (Fulfilled (Err "not-found"%string), w')
      /\ events (user w') = [called "findById"])
  /\ (exists w' : World,
      run (of_ 1%positive (fun h ex => call (async (
             x <- (fun _ _ => do logs (called "findById") ;; ret 7%nat) h ex ;;
             y <- fail h nat "early-fail"%string ;;
             (fun _ y => do logs (called "probe") ;; ret y) x y))))
          noArgs initial
      = (Fulfilled (Err "early-fail"%string), w')
      /\ events (user w') = [called "findById"])
  /\ (exists w' : World,
      run (of_ 1%positive (fun h _ =>
             unwrapped <- tryTo h nat
               (Rejected (Fault "error description"%string)) None ;;
             ret unwrapped))
          noArgs initial
      = (Rejected (Fault "error description"%string), w')
      /\ events (user w') = []).
Proof.
  destruct (interruption_aborts_builder_and_faults_escape
              (X := nat) (Y := nat) (A := nat) 1%positive noArgs initial)
    as (HtryTo & Hfail & Hfault).
  split; [|split]; eexists; (split; [|shelve]).
  - eapply HtryTo with (x := 7%nat) (error := "not-found"%string);
      reflexivity.
  - eapply Hfail with (x := 7%nat); reflexivity.
  - eapply Hfault; reflexivity.
  Unshelve. all: reflexivity.
Defined.

End ShortCircuitWitness.

(** ** Delay strategy *)

Section DelayStrategy.

Import Delay.

Lemma pow2_pos (n : Z) : 1 <= n -> 0 < 2 ^ (n - 1).
Proof. intros Hn. apply Z.pow_pos_nonneg; lia. Qed.

Lemma pow2_mono (n m : Z) : 1 <= n <= m -> 2 ^ (n - 1) <= 2 ^ (m - 1).
Proof. intros Hnm. apply Z.pow_le_mono_r; lia. Qed.

(** Away from a maximum of [0] the code computes what section 4.1 asks. *)
Lemma calculateDelay_specified (strategy : DelayStrategy) (attempt : Z) :
  (forall base, strategy <> exponentialBackoff base (Some 0)) ->
  calculateDelay strategy attempt = specifiedDelay strategy attempt.
Proof.
  intros Hcap. destruct strategy as [|base [cap|]]; try reflexivity.
  simpl. unfold calculateExponentialDelay, truthy.
  destruct (Z.eqb_spec cap 0) as [->|_]; [|reflexivity].
  now destruct (Hcap base).
Qed.

Lemma calculateDelay_nonnegative (strategy : DelayStrategy) (attempt : Z) :
  1 <= attempt ->
  match strategy with
  | immediate => True
  | exponentialBackoff base cap => 0 <= base /\ 0 <= default 0 cap
  end ->
  0 <= calculateDelay strategy attempt.
Proof.
  intros Hattempt Hstrategy. destruct strategy as [|base cap]; simpl; [lia|].
  destruct Hstrategy as [Hbase Hcap].
  pose proof (pow2_pos attempt Hattempt) as Hpow.
  unfold calculateExponentialDelay.
  destruct cap as [cap|]; simpl in *; [destruct (negb _)|]; nia.
Qed.

Lemma calculateDelay_monotone (strategy : DelayStrategy) (n m : Z) :
  1 <= n <= m ->
  match strategy with
  | immediate => True
  | exponentialBackoff base _ => 0 <= base
  end ->
  calculateDelay strategy n <= calculateDelay strategy m.
Proof.
  intros Hnm Hbase. destruct strategy as [|base cap]; simpl; [lia|].
  pose proof (pow2_mono n m Hnm) as Hpow.
  assert (base * 2 ^ (n - 1) <= base * 2 ^ (m - 1)) by nia.
  unfold calculateExponentialDelay.
  destruct cap as [cap|]; simpl; [destruct (negb _)|]; lia.
Qed.


(** With a maximum of [0] the delay is never capped. *)
Lemma calculateDelay_zero_cap (base attempt : Z) :
  calculateDelay (exponentialBackoff base (Some 0)) attempt
  = base * 2 ^ (attempt - 1).
Proof. reflexivity. Qed.

(** C6.  The claim asks for [min(base * 2^(n-1), max)] whenever a maximum
    is present, a maximum of [0] included.  The code tests the maximum for
    truthiness, so a maximum of [0] counts as absent: with a base of 100 ms
    the first delay is 100 ms and the delays keep doubling, where the claim
    asks for 0. *)
Theorem calculateDelay_zero_cap_not_applied :
  calculateDelay (exponentialBackoff 100 (Some 0)) 1 = 100
  /\ calculateDelay (exponentialBackoff 100 (Some 0)) 4 = 800
  /\ specifiedDelay (exponentialBackoff 100 (Some 0)) 1 = 0
  /\ calculateDelay (exponentialBackoff 100 (Some 0)) 1
     <> Z.min (100 * 2 ^ (1 - 1)) 0.
Proof. repeat split; try reflexivity. discriminate. Qed.

End DelayStrategy.

(** ** [lift] and [from] *)

Section Lift.

Context {P : Params} {A : Type}.

Import ResultFlow.

(** What a run of [from(value)] does: a thunk is called at evaluation time,
    a value is taken as it is; the result is then unwrapped. *)
Lemma run_from (l : positive) (value : Liftable A) (args : RunArgs)
    (w : World) :
  run (from l value) args w =
  match
    match value with
    | liftThunk thunk => thunk tt (setContext l (contextOf args) w)
    | liftValue result => (Normal result, setContext l (contextOf args) w)
    end
  with
  | (Normal (Fulfilled result), w') => (Fulfilled result, w')
  | (Normal (Rejected (ResultInterruption error)), w')
  | (Throw (ResultInterruption error), w') => (Fulfilled (Err error), w')
  | (Normal (Rejected (Fault fault)), w')
  | (Throw (Fault fault), w') => (Rejected (Fault fault), w')
  end.
Proof.
  unfold from. rewrite run_of, await_call_async.
  destruct value as [result|thunk].
  - rewrite await_tryTo. destruct result as [[v|e]|[e|f]]; reflexivity.
  - unfold bind at 1.
    destruct (thunk tt _) as [[produced|[e|f]] w']; try reflexivity.
    rewrite await_tryTo. destruct produced as [[v|e]|[e|f]]; reflexivity.
Qed.

(** C10.  [lift] is [from]: for every value or thunk the two flows are the
    same, so every run of either gives the same outcome and leaves the same
    world, namely: a thunk is called once, when the flow is evaluated, and
    the result (of the thunk, or the value itself) decides the outcome. *)
Theorem lift_behaves_as_from (l : positive) (value : Liftable A) :
  lift l value = from l value
  /\ forall (args : RunArgs) (w : World),
       run (lift l value) args w = run (from l value) args w
       /\ run (lift l value) args w
          = match
              match value with
              | liftThunk thunk => thunk tt (setContext l (contextOf args) w)
              | liftValue result =>
                  (Normal result, setContext l (contextOf args) w)
              end
            with
            | (Normal (Fulfilled result), w') => (Fulfilled result, w')
            | (Normal (Rejected (ResultInterruption error)), w')
            | (Throw (ResultInterruption error), w') =>
                (Fulfilled (Err error), w')
            | (Normal (Rejected (Fault fault)), w')
            | (Throw (Fault fault), w') => (Rejected (Fault fault), w')
            end.
Proof.
  split; [reflexivity|]. intros args w. split; [reflexivity|].
  unfold lift. apply run_from.
Qed.

End Lift.

(** ** Combinators on a failing receiver *)

Section FailingReceiver.

Context {P : Params} {A A2 : Type}.

Import ResultFlow.

(** Awaiting [tryTo(this.run(extras))], the first statement of [map],
    [chain] and [ifSuccess]. *)
Lemma await_tryTo_run (this : ResultFlow A) (args : RunArgs) (w : World) :
  (ran <- call (run this args) ;;
   unwrapped <- tryTo helpers A ran None ;;
   await unwrapped) w =
  match run this args w with
  | (Fulfilled (Ok value), w') => (Normal value, w')
  | (Fulfilled (Err error), w') => (Throw (ResultInterruption error), w')
  | (Rejected reason, w') => (Throw reason, w')
  end.
Proof.
  unfold bind at 1. unfold call.
  destruct (run this args w) as [ran w']. apply await_tryTo.
Qed.

Variables (this : ResultFlow A) (l : positive) (args : RunArgs) (w : World).

Let extras : Extras := {| context := contextOf args |}.
Let w0 : World := setContext l (contextOf args) w.

(** C4.  When the receiver's evaluation fails with [error], the flows built
    by [map(f)], [chain(f)] and [ifSuccess(f)] fail with the same [error];
    the world they leave is the one the receiver left, whatever [f] is: [f]
    is not invoked. *)
Theorem failure_skips_map_chain_ifSuccess (error : FailureT) (w1 : World) :
  run this (withExtras extras) w0 = (Fulfilled (Err error), w1) ->
  (forall f : A -> Extras -> M A2,
      run (map l f this) args w = (Fulfilled (Err error), w1))
  /\ (forall f : A -> Extras -> M (PolymorphicResult A2),
      run (chain l f this) args w = (Fulfilled (Err error), w1))
  /\ (forall f : A -> Extras -> M unit,
      run (ifSuccess l f this) args w = (Fulfilled (Err error), w1)).
Proof.
  intros Hfails.
  assert (Hfirst : forall B (rest : A -> M B),
    (ran <- call (run this (withExtras extras)) ;;
     unwrapped <- tryTo helpers A ran None ;;
     value <- await unwrapped ;;
     rest value) w0 = (Throw (ResultInterruption error), w1)).
  { intros B rest.
    pose proof (await_tryTo_run this (withExtras extras) w0) as Hawait.
    rewrite Hfails in Hawait.
    unfold bind in *. unfold call in *.
    destruct (run this (withExtras extras) w0) as [ran w'].
    destruct (tryTo helpers A ran None w') as [[unwrapped|t] w''];
      [|congruence].
    rewrite Hawait. reflexivity. }
  split; [|split]; intros f.
  - unfold map. rewrite run_of, await_call_async. fold extras w0.
    rewrite Hfirst. reflexivity.
  - unfold chain. rewrite run_of, await_call_async. fold extras w0.
    rewrite Hfirst. reflexivity.
  - unfold ifSuccess. rewrite run_of, await_call_async. fold extras w0.
    simpl. fold extras. rewrite Hfirst. reflexivity.
Qed.

End FailingReceiver.

Section FailingReceiverWitness.

#[local] Existing Instance Probe.params.

Import ResultFlow Probe.

(** The receiver is a step that fails with ["not-found"]; the callbacks are
    probes, which the log does not show. *)
Lemma failure_skips_map_chain_ifSuccess_witness :
  exists w1 : World,
    events (user w1) = [] /\ stepCalls (user w1) = 1%nat
    /\ (forall f : nat -> Extras -> M nat,
          run (map 2%positive f
                 (from 1%positive (liftThunk (step (Err "not-found"%string)))))
              noArgs initial
          = (Fulfilled (Err "not-found"%string), w1))
    /\ (forall f : nat -> Extras -> M (PolymorphicResult nat),
          run (chain 2%positive f
                 (from 1%positive (liftThunk (step (Err "not-found"%string)))))
              noArgs initial
          = (Fulfilled (Err "not-found"%string), w1))
    /\ (forall f : nat -> Extras -> M unit,
          run (ifSuccess 2%positive f
                 (from 1%positive (liftThunk (step (Err "not-found"%string)))))
              noArgs initial
          = (Fulfilled (Err "not-found"%string), w1)).
Proof.
  eexists. split; [|split]; [shelve|shelve|].
  eapply (failure_skips_map_chain_ifSuccess (A := nat) (A2 := nat)).
  reflexivity.
  Unshelve. all: reflexivity.
Defined.

End FailingReceiverWitness.

(** ** Retry policy *)

Section RetryLoop.

Context {P : Params} {A : Type}.

Import ResultFlow.

Variables (this : ResultFlow A) (config : RetryConfig).

Lemma retryLoop_0 (h : ResultFlowHelpers) (extras : Extras) (i : Z) (w : World) :
  retryLoop h config this extras 0 i w =
  (ran <- call (run this (withExtras extras)) ;;
   unwrapped <- tryTo h A ran None ;;
   await unwrapped) w.
Proof. reflexivity. Qed.

(** One turn of the loop, by the outcome of the attempt. *)
Lemma retryLoop_S (h : ResultFlowHelpers) (extras : Extras)
    (remaining : nat) (i : Z) (w : World) :
  retryLoop h config this extras (S remaining) i w =
  match run this (withExtras extras) w with
  | (Fulfilled (Ok value), w1) => (Normal value, w1)
  | (Fulfilled (Err error), w1) =>
      (shouldRetry <- conditionOf config error ;;
       if (shouldRetry : bool) then
         do match beforeRetry config with
            | Some before => before error (i + 1)
            | None => ret tt
            end ;;
         do (let delay :=
               Delay.calculateDelay (retryStrategyOf config) (i + 1) in
             if 0 <? delay
             then waited <- call (wait delay) ;; await waited
             else ret tt) ;;
         retryLoop h config this extras remaining (i + 1)
       else fail h A error) w1
  | (Rejected reason, w1) => (Throw reason, w1)
  end.
Proof.
  simpl. unfold bind at 1. unfold call.
  destruct (run this (withExtras extras) w) as [[[value|error]|reason] w1];
    reflexivity.
Qed.

(** The wait between two attempts leaves the user state alone. *)
Lemma delay_wait_user (strategy : Delay.DelayStrategy) (k : Z) (w : World) :
  exists w' : World,
    (if 0 <? Delay.calculateDelay strategy k
     then waited <- call (wait (Delay.calculateDelay strategy k)) ;;
          await waited
     else ret tt) w = (Normal tt, w')
    /\ user w' = user w.
Proof.
  destruct (0 <? _); eexists; split; reflexivity.
Qed.

End RetryLoop.

Section RetryBounds.

Context {P : Params} {A : Type}.

Import ResultFlow.

Variables (this : ResultFlow A) (config : RetryConfig).
Variables (calls : UserState -> nat) (retries : UserState -> list Z).
Variable before : FailureT -> Z -> M unit.

Hypothesis Hbefore : beforeRetry config = Some before.

(** Every evaluation of the receiver fails and is counted by [calls]; the
    condition accepts the error; neither touches [retries]. *)
Hypothesis Hfails : forall (args : RunArgs) (w : World),
  exists (error : FailureT) (w' : World),
    run this args w = (Fulfilled (Err error), w')
    /\ calls (user w') = S (calls (user w))
    /\ retries (user w') = retries (user w)
    /\ forall w1 : World, exists w2 : World,
         conditionOf config error w1 = (Normal true, w2)
         /\ calls (user w2) = calls (user w1)
         /\ retries (user w2) = retries (user w1).

(** [beforeRetry] logs its retry number in [retries] and leaves [calls]. *)
Hypothesis Hlogged : forall (error : FailureT) (k : Z) (w : World),
  exists w' : World,
    before error k w = (Normal tt, w')
    /\ calls (user w') = calls (user w)
    /\ retries (user w') = retries (user w) ++ [k].




End RetryBounds.


Section ConditionalRetry.

Context {P : Params} {A : Type}.

Import ResultFlow.

Variables (this : ResultFlow A) (config : RetryConfig).
Variables (calls : UserState -> nat) (retries : UserState -> list Z).
Variable before : FailureT -> Z -> M unit.
Variable rejectedAt : nat.

Hypothesis Hbefore : beforeRetry config = Some before.

(** Every evaluation of the receiver fails and is counted by [calls]; the
    condition accepts the error of an evaluation made while [calls] is
    below [rejectedAt], and rejects the error of a later one. *)
Hypothesis Hfails : forall (args : RunArgs) (w : World),
  exists (error : FailureT) (w' : World),
    run this args w = (Fulfilled (Err error), w')
    /\ calls (user w') = S (calls (user w))
    /\ retries (user w') = retries (user w)
    /\ forall w1 : World, exists w2 : World,
         conditionOf config error w1
           = (Normal (calls (user w) <? rejectedAt)%nat, w2)
         /\ calls (user w2) = calls (user w1)
         /\ retries (user w2) = retries (user w1).

Hypothesis Hlogged : forall (error : FailureT) (k : Z) (w : World),
  exists w' : World,
    before error k w = (Normal tt, w')
    /\ calls (user w') = calls (user w)
    /\ retries (user w') = retries (user w) ++ [k].

Lemma retryLoop_rejected (extras : Extras) (remaining : nat) :
  forall (i : Z) (w : World),
    (rejectedAt - calls (user w) < remaining)%nat ->
    (calls (user w) <= rejectedAt)%nat ->
    exists (error : FailureT) (wl w1 w' : World),
      retryLoop helpers config this extras remaining i w
        = (Throw (ResultInterruption error), w')
      /\ run this (withExtras extras) wl = (Fulfilled (Err error), w1)
      /\ calls (user wl) = rejectedAt
      /\ conditionOf config error w1 = (Normal false, w')
      /\ calls (user w') = S rejectedAt
      /\ retries (user w')
         = retries (user w)
             ++ seqZ (i + 1) (Z.of_nat (rejectedAt - calls (user w))).
Proof.
  induction remaining as [|remaining IH]; intros i w Hremain Hbelow; [lia|].
  destruct (Hfails (withExtras extras) w)
    as (error & w1 & Hrun & Hc1 & Hr1 & Hcond).
  destruct (Hcond w1) as (w2 & Hverdict & Hc2 & Hr2).
  rewrite retryLoop_S, Hrun. unfold bind at 1. rewrite Hverdict.
  destruct (Nat.ltb_spec (calls (user w)) rejectedAt) as [Hlt|Hge].
  - destruct (Hlogged error (i + 1) w2) as (w3 & Hcall & Hc3 & Hr3).
    destruct (delay_wait_user (retryStrategyOf config) (i + 1) w3)
      as (w4 & Hwait & Hu4).
    assert (Hc4 : calls (user w4) = S (calls (user w)))
      by (rewrite Hu4, Hc3, Hc2, Hc1; reflexivity).
    destruct (IH (i + 1) w4) as (last & wl & wl1 & w' & Hloop & Hlast & Hat
                                 & Hreject & Hc & Hr); [lia|lia|].
    exists last, wl, wl1, w'.
    rewrite Hbefore. unfold bind at 1. rewrite Hcall. unfold bind at 1.
    cbv zeta. rewrite Hwait. repeat split; try assumption.
    rewrite Hr, Hc4, Hu4, Hr3, Hr2, Hr1, <- app_assoc. f_equal.
    rewrite (seqZ_cons (i + 1)) by lia. simpl. do 2 f_equal; lia.
  - exists error, w, w1, w2.
    assert (Hat : calls (user w) = rejectedAt) by lia.
    rewrite Hverdict in *.
    destruct (Nat.ltb_spec (calls (user w)) rejectedAt); [lia|].
    repeat split; try assumption.
    + rewrite Hc2, Hc1, Hat. reflexivity.
    + rewrite Hr2, Hr1, Hat, Nat.sub_diag. simpl. now rewrite app_nil_r.
Qed.

(** C7.  The receiver fails at every evaluation; the errors of the first
    [k] evaluations pass the condition, the error of the next one does not,
    and [k] is below [maxRetries = n].  Then the retried flow fails with the
    error of that evaluation, in the world the condition left: the receiver
    was evaluated [k + 1] times and no more, and [beforeRetry] was called
    for the [k] accepted failures only, whatever [n] is. *)
Theorem retry_stops_when_condition_rejects
    (l : positive) (n : Z) (k : nat) (args : RunArgs) (w : World) :
  maxRetries config = Some n ->
  rejectedAt = (calls (user w) + k)%nat ->
  Z.of_nat k < n ->
  exists (error : FailureT) (wl w1 w' : World),
    run (retryPolicy l config this) args w = (Fulfilled (Err error), w')
    /\ run this (withExtras {| context := contextOf args |}) wl
       = (Fulfilled (Err error), w1)
    /\ conditionOf config error w1 = (Normal false, w')
    /\ calls (user wl) = (calls (user w) + k)%nat
    /\ calls (user w') = (calls (user w) + k + 1)%nat
    /\ retries (user w') = retries (user w) ++ seqZ 1 (Z.of_nat k).
Proof.
  intros Hmax Hat Hk.
  destruct (retryLoop_rejected {| context := contextOf args |}
              (Z.to_nat n) 0 (setContext l (contextOf args) w))
    as (error & wl & w1 & w' & Hloop & Hlast & Hcl & Hreject & Hc & Hr);
    simpl; [lia|lia|].
  exists error, wl, w1, w'.
  unfold retryPolicy. rewrite run_of, await_call_async.
  unfold maxRetriesOf. rewrite Hmax. simpl default. rewrite Hloop.
  simpl in Hr. repeat split; try assumption; try lia.
  rewrite Hr. do 2 f_equal. lia.
Qed.

End ConditionalRetry.

Section RetryWitnesses.

#[local] Existing Instance Probe.params.

Import ResultFlow Probe.

Lemma retryNumbers_logged (error : string) (k : Z) (w : World) :
  retryNumbers (user (beforeRetryMock error k w).2)
  = retryNumbers (user w) ++ [k].
Proof. unfold retryNumbers. simpl. now rewrite omap_app. Qed.


(** The test of the conditional retry: two failures that the condition
    accepts, then one that it rejects, with five retries allowed. *)
Lemma retry_stops_when_condition_rejects_witness :
  exists (error : string) (wl w1 w' : World),
    run (retryPolicy 2%positive
           {| beforeRetry := Some beforeRetryMock;
              condition :=
                Some (fun error => ret (String.eqb error "version-error"));
              maxRetries := Some 5; retryStrategy := None |}
           (from 1%positive (liftThunk (stepByCall (A := nat) (fun c =>
              Err (if (c <? 2)%nat then "version-error" else "error")%string)))))
        noArgs initial
    = (Fulfilled (Err error), w')
    /\ run (from 1%positive (liftThunk (stepByCall (A := nat) (fun c =>
              Err (if (c <? 2)%nat then "version-error" else "error")%string))))
           (withExtras {| context := contextOf noArgs |}) wl
       = (Fulfilled (Err error), w1)
    /\ conditionOf
         {| beforeRetry := Some beforeRetryMock;
            condition :=
              Some (fun error => ret (String.eqb error "version-error"));
            maxRetries := Some 5; retryStrategy := None |} error w1
       = (Normal false, w')
    /\ stepCalls (user wl) = (stepCalls (user initial) + 2)%nat
    /\ stepCalls (user w') = (stepCalls (user initial) + 2 + 1)%nat
    /\ retryNumbers (user w')
       = retryNumbers (user initial) ++ seqZ 1 (Z.of_nat 2).
Proof.
  apply (retry_stops_when_condition_rejects (P := params) (A := nat) _ _
           stepCalls retryNumbers beforeRetryMock 2%nat)
    with (n := 5) (k := 2%nat).
  - reflexivity.
  - intros args w. eexists _, _. repeat split.
    intros w1. eexists. repeat split.
    simpl. destruct (stepCalls (user w) <? 2)%nat; reflexivity.
  - intros error k w. eexists. split; [reflexivity|].
    split; [reflexivity|]. apply retryNumbers_logged.
  - reflexivity.
  - reflexivity.
  - lia.
Defined.

End RetryWitnesses.

(** ** Periodic supervisor *)

Section Periodic.

Context {P : Params} {A R : Type}.

Import ResultFlow.

Variables (this : ResultFlow A) (config : PeriodicConfig R).

(** [runPeriodically] arms a fresh timer and evaluates nothing. *)
Lemma runPeriodically_starts (w : World) :
  exists (session : PeriodicSession) (w' : World),
    runPeriodically config this w = (Normal session, w')
    /\ intervalId session = nextInterval w
    /\ onTick session = tick this config (nextInterval w)
    /\ interrupt session
       = (do clearInterval (nextInterval w) ;;
          optionalCall (onInterruption config) aborted)
    /\ intervals w' !! intervalId session = Some (interval config)
    /\ user w' = user w
    /\ contexts w' = contexts w.
Proof.
  eexists _, _. split; [reflexivity|]. simpl.
  repeat split. apply lookup_insert_eq.
Qed.

(** A timer event while the timer is armed runs the callback. *)
Lemma fire_armed (session : PeriodicSession) (w : World) :
  is_Some (intervals w !! intervalId session) ->
  fire session w = (Normal tt, (onTick session w).2).
Proof.
  intros [ms Harmed]. unfold fire. rewrite Harmed.
  destruct (onTick session w); reflexivity.
Qed.

(** A timer event after the timer was cleared does nothing. *)
Lemma fire_cleared (session : PeriodicSession) (w : World) :
  intervals w !! intervalId session = None ->
  fire session w = (Normal tt, w).
Proof. intros Hcleared. unfold fire. now rewrite Hcleared. Qed.

Lemma fireTimes_cleared (session : PeriodicSession) (n : nat) (w : World) :
  intervals w !! intervalId session = None ->
  fireTimes session n w = (Normal tt, w).
Proof.
  intros Hcleared. induction n as [|n IH]; [reflexivity|].
  simpl. unfold bind. rewrite fire_cleared by assumption. exact IH.
Qed.

Lemma cleared_lookup (id : nat) (w : World) :
  intervals (cleared id w) !! id = None.
Proof. apply lookup_delete_eq. Qed.

(** The tick callback, by the outcome of the evaluation of the receiver. *)
Lemma tick_eq (id : nat) (w : World) :
  tick this config id w =
  match run this (withExtras {| context := contexts w !! self this |}) w with
  | (Fulfilled (Ok _), w1) => (Fulfilled tt, w1)
  | (Fulfilled (Err error), w1) =>
      async (recoverOrStop this config id error) w1
  | (Rejected reason, w1) => (Rejected reason, w1)
  end.
Proof.
  unfold tick, async at 1, bind at 1, readContext. unfold bind at 1.
  unfold call at 1.
  destruct (run this _ w) as [[[value|error]|reason] w1]; reflexivity.
Qed.

Lemma async_world {B} (body : M B) (w : World) :
  (async body w).2 = (body w).2.
Proof. unfold async. destruct (body w) as [[b|t] w']; reflexivity. Qed.

(** How the value returned by [recoveryAction] is awaited: a flow is run
    with the receiver's current context, a promise is taken as it is. *)
Let evaluated (recovery : PolymorphicResult R) (w : World)
    : Promise (Result R) * World :=
  match recovery with
  | flowValue flow =>
      run flow (withExtras {| context := contexts w !! self this |}) w
  | resultValue promise => (promise, w)
  end.

Lemma recoverOrStop_without_recovery (id : nat) (error : FailureT)
    (w : World) :
  recoveryAction config = None ->
  recoverOrStop this config id error w
  = optionalCall (onInterruption config) (failure error None) (cleared id w).
Proof. intros Hnone. unfold recoverOrStop. rewrite Hnone. reflexivity. Qed.

Lemma recoverOrStop_with_recovery (id : nat) (error : FailureT)
    (recover : FailureT -> M (PolymorphicResult R))
    (recovery : PolymorphicResult R) (outcome : Result R)
    (w w1 w2 : World) :
  recoveryAction config = Some recover ->
  recover error w = (Normal recovery, w1) ->
  evaluated recovery w1 = (Fulfilled outcome, w2) ->
  recoverOrStop this config id error w
  = match outcome with
    | Ok _ => (Normal tt, w2)
    | Err recoveryError =>
        optionalCall (onInterruption config)
                     (failure error (Some recoveryError)) (cleared id w2)
    end.
Proof.
  intros Hsome Hrecover Hevaluated. unfold recoverOrStop. rewrite Hsome.
  unfold bind at 1. unfold bind at 1. rewrite Hrecover.
  unfold bind at 1.
  destruct recovery as [flow|promise]; simpl in Hevaluated.
  - unfold bind at 1. unfold readContext. unfold bind at 1. unfold call.
    rewrite Hevaluated. simpl. destruct outcome; reflexivity.
  - injection Hevaluated as -> ->. simpl. destruct outcome; reflexivity.
Qed.

(** C5.  The transitions of a periodic session.  While the timer is armed,
    a timer event evaluates the receiver; then
    - after a success nothing else happens: the timer stays armed, so the
      next event evaluates the receiver again;
    - after a failure without [recoveryAction] the timer is cleared and
      [onInterruption] is called once, with the error and no recovery error;
    - after a failure whose recovery succeeds nothing else happens;
    - after a failure whose recovery fails the timer is cleared and
      [onInterruption] is called once, with both errors;
    - once the timer is cleared, timer events evaluate nothing, so that two
      successes followed by a failure make three evaluations however many
      events follow. *)
Theorem periodic_session_transitions
    (w0 wstart : World) (session : PeriodicSession) :
  runPeriodically config this w0 = (Normal session, wstart) ->
  let id := intervalId session in
  let current w := withExtras {| context := contexts w !! self this |} in
  let armed w := is_Some (intervals w !! id) in
  armed wstart /\ user wstart = user w0
  /\ (forall (w w1 : World) (value : A),
        armed w ->
        run this (current w) w = (Fulfilled (Ok value), w1) ->
        fire session w = (Normal tt, w1))
  /\ (forall (w w1 : World) (error : FailureT),
        armed w ->
        recoveryAction config = None ->
        run this (current w) w = (Fulfilled (Err error), w1) ->
        (fire session w).2
        = (optionalCall (onInterruption config) (failure error None)
             (cleared id w1)).2
        /\ ~ armed (cleared id w1))
  /\ (forall (w w1 w2 w3 : World) (error : FailureT)
             (recover : FailureT -> M (PolymorphicResult R))
             (recovery : PolymorphicResult R) (value : R),
        armed w ->
        recoveryAction config = Some recover ->
        run this (current w) w = (Fulfilled (Err error), w1) ->
        recover error w1 = (Normal recovery, w2) ->
        evaluated recovery w2 = (Fulfilled (Ok value), w3) ->
        fire session w = (Normal tt, w3))
  /\ (forall (w w1 w2 w3 : World) (error recoveryError : FailureT)
             (recover : FailureT -> M (PolymorphicResult R))
             (recovery : PolymorphicResult R),
        armed w ->
        recoveryAction config = Some recover ->
        run this (current w) w = (Fulfilled (Err error), w1) ->
        recover error w1 = (Normal recovery, w2) ->
        evaluated recovery w2 = (Fulfilled (Err recoveryError), w3) ->
        (fire session w).2
        = (optionalCall (onInterruption config)
             (failure error (Some recoveryError)) (cleared id w3)).2
        /\ ~ armed (cleared id w3))
  /\ (forall (w w1 w2 w3 w4 : World) (first second : A) (error : FailureT)
             (n : nat),
        recoveryAction config = None ->
        armed w ->
        run this (current w) w = (Fulfilled (Ok first), w1) ->
        armed w1 ->
        run this (current w1) w1 = (Fulfilled (Ok second), w2) ->
        armed w2 ->
        run this (current w2) w2 = (Fulfilled (Err error), w3) ->
        (optionalCall (onInterruption config) (failure error None)
           (cleared id w3)).2 = w4 ->
        ~ armed w4 ->
        fireTimes session (3 + n) w = (Normal tt, w4)).
Proof.
  intros Hstart id current armed.
  destruct (runPeriodically_starts w0)
    as (session' & wstart' & Hstart' & Hid & Htick & _ & Harmed & Huser & _).
  rewrite Hstart in Hstart'. injection Hstart' as <- <-.
  assert (Hsuccess : forall (w w1 : World) (value : A),
    armed w -> run this (current w) w = (Fulfilled (Ok value), w1) ->
    fire session w = (Normal tt, w1)).
  { intros w w1 value Hw Hrun. rewrite fire_armed by exact Hw.
    rewrite Htick, tick_eq. fold (current w). rewrite Hrun. reflexivity. }
  assert (Hstop : forall (w w1 : World) (error : FailureT),
    armed w -> recoveryAction config = None ->
    run this (current w) w = (Fulfilled (Err error), w1) ->
    (fire session w).2
    = (optionalCall (onInterruption config) (failure error None)
         (cleared id w1)).2).
  { intros w w1 error Hw Hnone Hrun. rewrite fire_armed by exact Hw.
    rewrite Htick, tick_eq. fold (current w). rewrite Hrun. simpl.
    rewrite async_world, recoverOrStop_without_recovery by exact Hnone.
    unfold id. rewrite Hid. reflexivity. }
  assert (Hcleared : forall w, ~ armed (cleared id w)).
  { intros w. unfold armed. rewrite cleared_lookup. apply is_Some_None. }
  split; [|split; [|split; [|split; [|split; [|split]]]]].
  - unfold armed, id. rewrite Harmed. eauto.
  - exact Huser.
  - exact Hsuccess.
  - intros w w1 error Hw Hnone Hrun. split; [|apply Hcleared].
    now apply Hstop.
  - intros w w1 w2 w3 error recover recovery value Hw Hsome Hrun Hrecover
      Hevaluated.
    rewrite fire_armed by exact Hw.
    rewrite Htick, tick_eq. fold (current w). rewrite Hrun. simpl.
    unfold async.
    rewrite (recoverOrStop_with_recovery _ _ _ _ _ _ _ _ Hsome Hrecover
               Hevaluated).
    reflexivity.
  - intros w w1 w2 w3 error recoveryError recover recovery Hw Hsome Hrun
      Hrecover Hevaluated.
    split; [|apply Hcleared].
    rewrite fire_armed by exact Hw.
    rewrite Htick, tick_eq. fold (current w). rewrite Hrun. simpl.
    rewrite async_world.
    rewrite (recoverOrStop_with_recovery _ _ _ _ _ _ _ _ Hsome Hrecover
               Hevaluated).
    unfold id. rewrite Hid. reflexivity.
  - intros w w1 w2 w3 w4 first second error n Hnone Hw Hrun1 Hw1 Hrun2 Hw2
      Hrun3 Hcalled Hw4.
    simpl. unfold bind at 1. rewrite (Hsuccess w w1 first) by assumption.
    unfold bind at 1. rewrite (Hsuccess w1 w2 second) by assumption.
    unfold bind at 1.
    pose proof (Hstop w2 w3 error Hw2 Hnone Hrun3) as Hthird.
    rewrite Hcalled in Hthird.
    rewrite fire_armed in Hthird |- * by exact Hw2. simpl in Hthird.
    rewrite Hthird. apply fireTimes_cleared.
    destruct (intervals w4 !! intervalId session) eqn:Hlookup;
      [|reflexivity].
    exfalso. apply Hw4. unfold armed, id. rewrite Hlookup. eauto.
Qed.

End Periodic.

Section PeriodicWitness.

#[local] Existing Instance Probe.params.

Import ResultFlow Probe.

(** The test of the supervisor: a step that succeeds twice and then fails,
    no recovery, four timer events. *)
Lemma periodic_session_transitions_witness :
  exists (session : PeriodicSession) (wstart w4 : World),
    runPeriodically (R := unit)
      {| recoveryAction := None; onInterruption := Some onInterruptionMock;
         interval := 10 |}
      (from 1%positive (liftThunk (stepByCall (fun c =>
         if (c <? 2)%nat then Ok tt else Err "error"%string))))
      initial
    = (Normal session, wstart)
    /\ fireTimes session (3 + 1) wstart = (Normal tt, w4)
    /\ stepCalls (user w4) = 3%nat
    /\ interruptions (user w4)
       = [calledOnInterruption "failure" (Some "error"%string) None].
Proof.
  eexists _, _, _. split; [reflexivity|].
  split; [|split; [shelve|shelve]].
  eapply (periodic_session_transitions (P := params) (A := unit) (R := unit)
            _ _ initial _ _ eq_refl).
  - reflexivity.
  - eexists; reflexivity.
  - reflexivity.
  - eexists; reflexivity.
  - reflexivity.
  - eexists; reflexivity.
  - reflexivity.
  - reflexivity.
  - intros [ms Harmed]. discriminate Harmed.
  Unshelve. all: reflexivity.
Defined.

End PeriodicWitness.

(** ** [interrupt] on a session that has already stopped *)

Section InterruptAfterStop.

#[local] Existing Instance Probe.params.

Import ResultFlow Probe.

(** C9, as claimed, fails.  A step that always fails, no recovery: the
    first timer event stops the session and calls [onInterruption] with the
    failure; [interrupt()] on the stopped session then calls
    [onInterruption] again, and a second [interrupt()] once more. *)
Lemma interrupt_after_stop_calls_onInterruption_again :
  exists (session : PeriodicSession) (wstart : World),
    runPeriodically (R := unit)
      {| recoveryAction := None; onInterruption := Some onInterruptionMock;
         interval := 10 |}
      (from 1%positive (liftThunk (step (A := unit) (Err "error"%string))))
      initial
    = (Normal session, wstart)
    /\ let stopped := (fire session wstart).2 in
       let interrupted := (interrupt session stopped).2 in
       let again := (interrupt session interrupted).2 in
       intervals stopped !! intervalId session = None
       /\ interruptions (user stopped)
          = [calledOnInterruption "failure" (Some "error"%string) None]
       /\ interruptions (user interrupted)
          = [calledOnInterruption "failure" (Some "error"%string) None;
             calledOnInterruption "aborted" None None]
       /\ interruptions (user again)
          = [calledOnInterruption "failure" (Some "error"%string) None;
             calledOnInterruption "aborted" None None;
             calledOnInterruption "aborted" None None].
Proof. eexists _, _. split; [reflexivity|]. repeat split. Qed.

End InterruptAfterStop.

Section Interrupt.

Context {P : Params} {A R : Type}.

Import ResultFlow.

Variables (this : ResultFlow A) (config : PeriodicConfig R).

Lemma cleared_idempotent (id : nat) (w : World) :
  cleared id (cleared id w) = cleared id w.
Proof. unfold cleared. simpl. f_equal. apply delete_delete_eq. Qed.

Lemma cleared_absent (id : nat) (w : World) :
  intervals w !! id = None -> cleared id w = w.
Proof.
  intros Habsent. destruct w as [u c t n s]. unfold cleared. simpl in *.
  f_equal. now apply delete_id.
Qed.

(** C9, amended.  Once the timer is cleared, no timer event that arrives
    afterwards evaluates the receiver or calls [onInterruption], and
    clearing the timer again changes nothing.  But [interrupt()] has no
    guard: every call clears the timer and calls
    [onInterruption({ cause: 'aborted' })], also on a session that has
    already stopped.  (A callback that is still running when the timer is
    cleared is outside this statement.) *)
Theorem interrupt_calls_onInterruption_every_time
    (w0 wstart : World) (session : PeriodicSession) :
  runPeriodically config this w0 = (Normal session, wstart) ->
  let id := intervalId session in
  (forall w : World,
      interrupt session w
      = optionalCall (onInterruption config) aborted (cleared id w))
  /\ (forall w : World,
        intervals w !! id = None ->
        interrupt session w = optionalCall (onInterruption config) aborted w)
  /\ (forall w : World, cleared id (cleared id w) = cleared id w)
  /\ (forall (w : World) (n : nat),
        intervals w !! id = None ->
        fireTimes session n w = (Normal tt, w)).
Proof.
  intros Hstart id.
  destruct (runPeriodically_starts this config w0)
    as (session' & wstart' & Hstart' & Hid & _ & Hinterrupt & _).
  rewrite Hstart in Hstart'. injection Hstart' as <- <-.
  assert (Hcall : forall w : World,
    interrupt session w
    = optionalCall (onInterruption config) aborted (cleared id w)).
  { intros w. rewrite Hinterrupt. unfold id. rewrite Hid. reflexivity. }
  repeat split.
  - exact Hcall.
  - intros w Hstopped. rewrite Hcall, cleared_absent by exact Hstopped.
    reflexivity.
  - intros w. apply cleared_idempotent.
  - intros w n Hstopped. now apply fireTimes_cleared.
Qed.

End Interrupt.

Section InterruptWitness.

#[local] Existing Instance Probe.params.

Import ResultFlow Probe.

Lemma interrupt_calls_onInterruption_every_time_witness :
  exists (session : PeriodicSession) (wstart : World),
    runPeriodically (R := unit)
      {| recoveryAction := None; onInterruption := Some onInterruptionMock;
         interval := 10 |}
      (from 1%positive (liftThunk (step (A := unit) (Ok tt))))
      initial
    = (Normal session, wstart)
    /\ interrupt session wstart
       = optionalCall (Some onInterruptionMock) aborted
           (cleared (intervalId session) wstart)
    /\ interruptions (user (interrupt session wstart).2)
       = [calledOnInterruption "aborted" None None].
Proof.
  eexists _, _. split; [reflexivity|]. split; [|reflexivity].
  destruct (interrupt_calls_onInterruption_every_time (P := params)
              (A := unit) (R := unit)
              (from 1%positive (liftThunk (step (A := unit) (Ok tt))))
              {| recoveryAction := None;
                 onInterruption := Some onInterruptionMock;
                 interval := 10 |}
              initial _ _ eq_refl) as (Hcall & _).
  apply Hcall.
Defined.

End InterruptWitness.

(** ** The context of a periodic session *)

Section ContextOfTicksCounterexample.

#[local] Existing Instance Probe.params.

Import ResultFlow Probe.

(** C8, as claimed, fails.  The flow logs the context it is evaluated with.
    It is run with the context ["user-1"], then the session starts; a later
    [run] of the same flow with ["user-2"] makes the following tick
    evaluate the flow with ["user-2"], not with the context the flow had
    when the session started. *)
Lemma later_run_changes_context_of_ticks :
  let flow : ResultFlow unit :=
    of_ 1%positive (fun _ extras =>
      call (async (logs (calledWithContext (context extras))))) in
  let config : PeriodicConfig unit :=
    {| recoveryAction := None; onInterruption := None; interval := 10 |} in
  let w1 := (run flow (withExtras {| context := Some "user-1"%string |})
               initial).2 in
  exists (session : PeriodicSession) (wstart : World),
    runPeriodically config flow w1 = (Normal session, wstart)
    /\ contexts wstart !! self flow = Some "user-1"%string
    /\ let w2 := (run flow (withExtras {| context := Some "user-2"%string |})
                    wstart).2 in
       let w3 := (fire session w2).2 in
       events (user w3)
       = [calledWithContext (Some "user-1"%string);
          calledWithContext (Some "user-2"%string);
          calledWithContext (Some "user-2"%string)].
Proof. eexists _, _. repeat split. Qed.

End ContextOfTicksCounterexample.

Section ContextOfTicks.

Context {P : Params} {A R : Type}.

Import ResultFlow.

Variables (this : ResultFlow A) (config : PeriodicConfig R).

(** A [run] leaves in the [context] field what it was called with, unless
    the builder itself writes the field. *)
Lemma run_stores_context (args : RunArgs) (w : World) :
  (forall (extras : Extras) (w' : World),
      contexts (runPromise this helpers extras w').2 !! self this
      = contexts w' !! self this) ->
  contexts (run this args w).2 !! self this = contextOf args.
Proof.
  intros Hbuilder. destruct this as [l builder]. simpl in *.
  change {| self := l; runPromise := builder |} with (of_ l builder).
  rewrite run_of. unfold bind.
  specialize (Hbuilder {| context := contextOf args |}
                (setContext l (contextOf args) w)).
  destruct (builder helpers _ _) as [[promise|reason] w1]; simpl in Hbuilder.
  - assert (Hstored : contexts w1 !! l = contextOf args).
    { rewrite Hbuilder. unfold setContext. simpl.
      apply lookup_partial_alter_eq. }
    destruct promise as [value|[error|fault]]; exact Hstored.
  - assert (Hstored : contexts w1 !! l = contextOf args).
    { rewrite Hbuilder. unfold setContext. simpl.
      apply lookup_partial_alter_eq. }
    destruct reason as [error|fault]; exact Hstored.
Qed.

(** C8, amended.  A session captures no context when it starts: two
    sessions of the same flow started in different worlds with the same
    timer identifier are the same session.  Every tick reads the [context]
    field of the flow when it fires and evaluates the flow with that value;
    the field holds the context of the latest [run] of that flow object, so
    a [run] with another context changes what the following ticks use. *)
Theorem ticks_use_context_of_latest_run
    (w0 wstart : World) (session : PeriodicSession) :
  runPeriodically config this w0 = (Normal session, wstart) ->
  (forall (w0' wstart' : World) (session' : PeriodicSession),
      runPeriodically config this w0' = (Normal session', wstart') ->
      nextInterval w0' = nextInterval w0 ->
      session' = session)
  /\ (forall w : World,
        onTick session w
        = match run this (withExtras {| context := contexts w !! self this |})
                  w with
          | (Fulfilled (Ok _), w1) => (Fulfilled tt, w1)
          | (Fulfilled (Err error), w1) =>
              async (recoverOrStop this config (intervalId session) error) w1
          | (Rejected reason, w1) => (Rejected reason, w1)
          end)
  /\ (forall (args : RunArgs) (w : World),
        (forall (extras : Extras) (w' : World),
            contexts (runPromise this helpers extras w').2 !! self this
            = contexts w' !! self this) ->
        let after := (run this args w).2 in
        contexts after !! self this = contextOf args
        /\ onTick session after
           = match run this (withExtras {| context := contextOf args |})
                     after with
             | (Fulfilled (Ok _), w1) => (Fulfilled tt, w1)
             | (Fulfilled (Err error), w1) =>
                 async (recoverOrStop this config (intervalId session) error)
                       w1
             | (Rejected reason, w1) => (Rejected reason, w1)
             end).
Proof.
  intros Hstart.
  destruct (runPeriodically_starts this config w0)
    as (s & ws & Hs & Hid & Htick & Hinterrupt & _).
  rewrite Hstart in Hs. injection Hs as <- <-.
  assert (Hread : forall w : World,
    onTick session w
    = match run this (withExtras {| context := contexts w !! self this |})
              w with
      | (Fulfilled (Ok _), w1) => (Fulfilled tt, w1)
      | (Fulfilled (Err error), w1) =>
          async (recoverOrStop this config (intervalId session) error) w1
      | (Rejected reason, w1) => (Rejected reason, w1)
      end).
  { intros w. rewrite Htick, Hid. apply tick_eq. }
  split; [|split].
  - intros w0' wstart' session' Hstart' Hsame.
    destruct (runPeriodically_starts this config w0')
      as (s & ws & Hs & Hid' & Htick' & Hinterrupt' & _).
    rewrite Hstart' in Hs. injection Hs as <- <-.
    destruct session as [id1 tick1 interrupt1].
    destruct session' as [id2 tick2 interrupt2]. simpl in *.
    rewrite Hsame in *. congruence.
  - exact Hread.
  - intros args w Hbuilder after.
    pose proof (run_stores_context args w Hbuilder) as Hstored.
    fold after in Hstored. split; [exact Hstored|].
    rewrite Hread, Hstored. reflexivity.
Qed.

End ContextOfTicks.

Section ContextOfTicksWitness.

#[local] Existing Instance Probe.params.

Import ResultFlow Probe.

Lemma ticks_use_context_of_latest_run_witness :
  let flow : ResultFlow unit :=
    of_ 1%positive (fun _ extras =>
      call (async (logs (calledWithContext (context extras))))) in
  let config : PeriodicConfig unit :=
    {| recoveryAction := None; onInterruption := None; interval := 10 |} in
  exists (session : PeriodicSession) (wstart : World),
    runPeriodically config flow initial = (Normal session, wstart)
    /\ let after :=
         (run flow (withExtras {| context := Some "user-2"%string |})
              wstart).2 in
       contexts after !! self flow = Some "user-2"%string
       /\ events (user (onTick session after).2)
          = [calledWithContext (Some "user-2"%string);
             calledWithContext (Some "user-2"%string)].
Proof.
  intros flow config. eexists _, _. split; [reflexivity|].
  destruct (ticks_use_context_of_latest_run (P := params) flow config
              initial _ _ eq_refl) as (_ & _ & Hlatest).
  destruct (Hlatest (withExtras (@Build_Extras params (Some "user-2"%string)))
              (runPeriodically config flow initial).2) as [Hstored Htick].
  - intros extras w'. reflexivity.
  - split; [exact Hstored|].
    etrans; [exact (f_equal (fun x => events (user x.2)) Htick)|].
    reflexivity.
Defined.

End ContextOfTicksWitness.

(** ** Combinators and the effects of the receiver *)

Section Immutability.

Context {P : Params} {A A2 : Type}.

Import ResultFlow.

Variable this : ResultFlow A.
Variable fires : UserState -> nat.

(** [run] adds nothing to what the evaluation of the builder did. *)
Lemma run_of_world {B} (l : positive)
    (builder : ResultFlowHelpers -> Extras -> M (Promise B))
    (args : RunArgs) (w : World) :
  (run (of_ l builder) args w).2
  = ((promise <- builder helpers {| context := contextOf args |} ;;
      await promise) (setContext l (contextOf args) w)).2.
Proof.
  rewrite run_of.
  destruct (bind _ _ _) as [[value|[error|fault]] w']; reflexivity.
Qed.

Lemma bind_tryTo_run {B} (args : RunArgs) (rest : A -> M B) (w : World) :
  (ran <- call (run this args) ;;
   unwrapped <- tryTo helpers A ran None ;;
   value <- await unwrapped ;;
   rest value) w
  = match run this args w with
    | (Fulfilled (Ok value), w1) => rest value w1
    | (Fulfilled (Err error), w1) => (Throw (ResultInterruption error), w1)
    | (Rejected reason, w1) => (Throw reason, w1)
    end.
Proof.
  unfold bind at 1. unfold call.
  destruct (run this args w) as [[[value|error]|reason] w1]; reflexivity.
Qed.

Lemma bind_await_run {B} (args : RunArgs) (rest : Result A -> M B)
    (w : World) :
  (ran <- call (run this args) ;; result <- await ran ;; rest result) w
  = match run this args w with
    | (Fulfilled result, w1) => rest result w1
    | (Rejected reason, w1) => (Throw reason, w1)
    end.
Proof.
  unfold bind at 1. unfold call.
  destruct (run this args w) as [[result|reason] w1]; reflexivity.
Qed.

(** Awaiting what a callback of [chain] or [orElse] returned. *)
Lemma kept_polymorphic {B} (value : PolymorphicResult B) (extras : Extras) :
  match value with
  | flowValue flow => forall args, kept fires (run flow args)
  | resultValue _ => True
  end ->
  kept fires
    (match value with
     | flowValue flow =>
         ran <- call (run flow (withExtras extras)) ;;
         unwrapped <- tryTo helpers B ran None ;;
         await unwrapped
     | resultValue promise =>
         unwrapped <- tryTo helpers B promise None ;;
         await unwrapped
     end).
Proof.
  intros Hflow w. destruct value as [flow|promise].
  - specialize (Hflow (withExtras extras) w).
    unfold bind at 1. unfold call.
    destruct (run flow (withExtras extras) w) as [ran w1].
    rewrite await_tryTo. simpl in Hflow.
    destruct ran as [[v|e]|t]; exact Hflow.
  - rewrite await_tryTo. destruct promise as [[v|e]|t]; reflexivity.
Qed.

Hypothesis Hthis : forall args : RunArgs, bumped fires (run this args).

Lemma bumped_map (l : positive) (f : A -> Extras -> M A2) :
  (forall value extras, kept fires (f value extras)) ->
  forall args, bumped fires (run (map l f this) args).
Proof.
  intros Hf args w. unfold map.
  rewrite run_of_world, await_call_async, bind_tryTo_run.
  specialize (Hthis (withExtras {| context := contextOf args |})
                (setContext l (contextOf args) w)).
  simpl in Hthis. destruct (run this _ _) as [[[value|error]|reason] w1];
    simpl in *; try exact Hthis.
  rewrite Hf. exact Hthis.
Qed.

Lemma bumped_mapError (l : positive) (f : FailureT -> Extras -> M FailureT) :
  (forall error extras, kept fires (f error extras)) ->
  forall args, bumped fires (run (mapError l f this) args).
Proof.
  intros Hf args w. unfold mapError.
  rewrite run_of_world, await_call_async, bind_await_run.
  specialize (Hthis (withExtras {| context := contextOf args |})
                (setContext l (contextOf args) w)).
  simpl in Hthis. destruct (run this _ _) as [[[value|error]|reason] w1];
    simpl in *; try exact Hthis.
  unfold bind.
  specialize (Hf error {| context := contextOf args |} w1).
  destruct (f error _ w1) as [[mapped|reason] w2]; simpl in *;
    rewrite Hf; exact Hthis.
Qed.

Lemma bumped_chain (l : positive)
    (f : A -> Extras -> M (PolymorphicResult A2)) :
  (forall value extras, kept fires (f value extras)) ->
  (forall value extras w flow,
      (f value extras w).1 = Normal (flowValue flow) ->
      forall args, kept fires (run flow args)) ->
  forall args, bumped fires (run (chain l f this) args).
Proof.
  intros Hf Hflow args w. unfold chain.
  rewrite run_of_world, await_call_async, bind_tryTo_run.
  specialize (Hthis (withExtras {| context := contextOf args |})
                (setContext l (contextOf args) w)).
  simpl in Hthis. destruct (run this _ _) as [[[value|error]|reason] w1];
    simpl in *; try exact Hthis.
  unfold bind at 1.
  specialize (Hf value {| context := contextOf args |} w1).
  specialize (Hflow value {| context := contextOf args |} w1).
  destruct (f value _ w1) as [[fResult|reason] w2]; simpl in *;
    [|rewrite Hf; exact Hthis].
  rewrite (kept_polymorphic fResult).
  - rewrite Hf. exact Hthis.
  - destruct fResult as [flow|promise]; [|exact I].
    now apply Hflow.
Qed.

Lemma bumped_ifSuccess (l : positive) (f : A -> Extras -> M unit) :
  (forall value extras, kept fires (f value extras)) ->
  forall args, bumped fires (run (ifSuccess l f this) args).
Proof.
  intros Hf args w. unfold ifSuccess.
  rewrite run_of_world, await_call_async. simpl context.
  rewrite bind_tryTo_run.
  specialize (Hthis (withExtras {| context := contextOf args |})
                (setContext l (contextOf args) w)).
  simpl in Hthis. destruct (run this _ _) as [[[value|error]|reason] w1];
    simpl in *; try exact Hthis.
  unfold bind.
  specialize (Hf value {| context := contextOf args |} w1).
  destruct (f value _ w1) as [[[]|reason] w2]; simpl in *;
    rewrite Hf; exact Hthis.
Qed.

Lemma bumped_ifFailure (l : positive) (f : FailureT -> Extras -> M unit) :
  (forall error extras, kept fires (f error extras)) ->
  forall args, bumped fires (run (ifFailure l f this) args).
Proof.
  intros Hf args w. unfold ifFailure.
  rewrite run_of_world, await_call_async, bind_await_run.
  specialize (Hthis (withExtras {| context := contextOf args |})
                (setContext l (contextOf args) w)).
  simpl in Hthis. destruct (run this _ _) as [[[value|error]|reason] w1];
    simpl in *; try exact Hthis.
  unfold bind.
  specialize (Hf error {| context := contextOf args |} w1).
  destruct (f error _ w1) as [[[]|reason] w2]; simpl in *;
    rewrite Hf; exact Hthis.
Qed.

Lemma bumped_orElse (l : positive)
    (alternative : FailureT -> Extras -> M (PolymorphicResult A)) :
  (forall error extras, kept fires (alternative error extras)) ->
  (forall error extras w flow,
      (alternative error extras w).1 = Normal (flowValue flow) ->
      forall args, kept fires (run flow args)) ->
  forall args, bumped fires (run (orElse l alternative this) args).
Proof.
  intros Hf Hflow args w. unfold orElse.
  rewrite run_of_world, await_call_async, bind_await_run.
  specialize (Hthis (withExtras {| context := contextOf args |})
                (setContext l (contextOf args) w)).
  simpl in Hthis. destruct (run this _ _) as [[[value|error]|reason] w1];
    simpl in *; try exact Hthis.
  unfold bind at 1.
  specialize (Hf error {| context := contextOf args |} w1).
  specialize (Hflow error {| context := contextOf args |} w1).
  destruct (alternative error _ w1) as [[alternativeResult|reason] w2];
    simpl in *; [|rewrite Hf; exact Hthis].
  rewrite (kept_polymorphic alternativeResult).
  - rewrite Hf. exact Hthis.
  - destruct alternativeResult as [flow|promise]; [|exact I].
    now apply Hflow.
Qed.

(** The retry loop evaluates the receiver once per attempt. *)
Lemma retryLoop_fires (config : RetryConfig) (extras : Extras) :
  (forall error, kept fires (conditionOf config error)) ->
  (forall before error k,
      beforeRetry config = Some before -> kept fires (before error k)) ->
  forall (remaining : nat) (i : Z) (w : World),
  exists attempts : nat,
    (1 <= attempts <= remaining + 1)%nat
    /\ fires (user (retryLoop helpers config this extras remaining i w).2)
       = (fires (user w) + attempts)%nat.
Proof.
  intros Hcondition Hbefore.
  induction remaining as [|remaining IH]; intros i w.
  - exists 1%nat. split; [lia|].
    rewrite retryLoop_0, await_tryTo_run.
    specialize (Hthis (withExtras extras) w).
    destruct (run this _ w) as [[[value|error]|reason] w1]; simpl in *; lia.
  - rewrite retryLoop_S.
    specialize (Hthis (withExtras extras) w).
    destruct (run this _ w) as [[[value|error]|reason] w1]; simpl in Hthis;
      try (exists 1%nat; split; simpl; lia).
    unfold bind at 1.
    specialize (Hcondition error w1).
    destruct (conditionOf config error w1) as [[[|]|reason] w2];
      simpl in Hcondition;
      try (exists 1%nat; split; simpl; lia).
    unfold bind at 1.
    assert (Hcalled : fires (user
      (match beforeRetry config with
       | Some before => before error (i + 1)
       | None => ret tt
       end w2).2) = fires (user w2)).
    { destruct (beforeRetry config) as [before|] eqn:Hsome; [|reflexivity].
      apply (Hbefore before error (i + 1) eq_refl). }
    destruct (match beforeRetry config with
              | Some before => before error (i + 1)
              | None => ret tt
              end w2) as [[[]|reason] w3]; simpl in Hcalled;
      [|exists 1%nat; split; simpl; lia].
    unfold bind at 1. cbv zeta.
    destruct (delay_wait_user (retryStrategyOf config) (i + 1) w3)
      as (w4 & Hwait & Hu4).
    rewrite Hwait.
    destruct (IH (i + 1) w4) as (attempts & Hbound & Hfires).
    exists (S attempts). split; [lia|].
    rewrite Hfires, Hu4. lia.
Qed.

(** C2.  Flows are values: a combinator builds a new object around the
    receiver and touches neither the receiver nor the world, so the
    receiver evaluates after the construction as it did before.  What the
    derived flow does to the effects of the receiver is measured by a probe
    [fires] that every evaluation of the receiver bumps and that the
    callbacks leave alone: one evaluation of [map], [mapError], [chain],
    [ifSuccess], [ifFailure] or [orElse] evaluates the receiver exactly
    once, and one evaluation of [retryPolicy] once per attempt, between [1]
    and [maxRetries + 1] times. *)
Theorem combinators_evaluate_receiver_once :
  (forall (l : positive) (f : A -> Extras -> M A2),
      (forall value extras, kept fires (f value extras)) ->
      self (map l f this) = l
      /\ forall args, bumped fires (run (map l f this) args))
  /\ (forall (l : positive) (f : FailureT -> Extras -> M FailureT),
      (forall error extras, kept fires (f error extras)) ->
      self (mapError l f this) = l
      /\ forall args, bumped fires (run (mapError l f this) args))
  /\ (forall (l : positive) (f : A -> Extras -> M (PolymorphicResult A2)),
      (forall value extras, kept fires (f value extras)) ->
      (forall value extras w flow,
          (f value extras w).1 = Normal (flowValue flow) ->
          forall args, kept fires (run flow args)) ->
      self (chain l f this) = l
      /\ forall args, bumped fires (run (chain l f this) args))
  /\ (forall (l : positive) (f : A -> Extras -> M unit),
      (forall value extras, kept fires (f value extras)) ->
      self (ifSuccess l f this) = l
      /\ forall args, bumped fires (run (ifSuccess l f this) args))
  /\ (forall (l : positive) (f : FailureT -> Extras -> M unit),
      (forall error extras, kept fires (f error extras)) ->
      self (ifFailure l f this) = l
      /\ forall args, bumped fires (run (ifFailure l f this) args))
  /\ (forall (l : positive)
             (alternative : FailureT -> Extras -> M (PolymorphicResult A)),
      (forall error extras, kept fires (alternative error extras)) ->
      (forall error extras w flow,
          (alternative error extras w).1 = Normal (flowValue flow) ->
          forall args, kept fires (run flow args)) ->
      self (orElse l alternative this) = l
      /\ forall args, bumped fires (run (orElse l alternative this) args))
  /\ (forall (l : positive) (config : RetryConfig),
      (forall error, kept fires (conditionOf config error)) ->
      (forall before error k,
          beforeRetry config = Some before -> kept fires (before error k)) ->
      self (retryPolicy l config this) = l
      /\ forall args w, exists attempts : nat,
           (1 <= attempts <= Z.to_nat (maxRetriesOf config) + 1)%nat
           /\ fires (user (run (retryPolicy l config this) args w).2)
              = (fires (user w) + attempts)%nat).
Proof.
  split; [|split; [|split; [|split; [|split; [|split]]]]].
  - intros l f Hf. split; [reflexivity|]. now apply bumped_map.
  - intros l f Hf. split; [reflexivity|]. now apply bumped_mapError.
  - intros l f Hf Hflow. split; [reflexivity|]. now apply bumped_chain.
  - intros l f Hf. split; [reflexivity|]. now apply bumped_ifSuccess.
  - intros l f Hf. split; [reflexivity|]. now apply bumped_ifFailure.
  - intros l f Hf Hflow. split; [reflexivity|]. now apply bumped_orElse.
  - intros l config Hcondition Hbefore. split; [reflexivity|].
    intros args w.
    destruct (retryLoop_fires config {| context := contextOf args |}
                Hcondition Hbefore (Z.to_nat (maxRetriesOf config)) 0
                (setContext l (contextOf args) w))
      as (attempts & Hbound & Hfires).
    exists attempts. unfold retryPolicy.
    rewrite run_of_world, await_call_async. auto.
Qed.

End Immutability.

Section ImmutabilityWitness.

#[local] Existing Instance Probe.params.

Import ResultFlow Probe.

(** The immutability test: [r1 = from(ok(10))], [r2 = r1.ifSuccess(effect)].
    Running [r1] before and after building [r2] never calls the effect;
    each run of [r2] calls it once and evaluates [r1] once. *)
Lemma combinators_evaluate_receiver_once_witness :
  let r1 : ResultFlow nat :=
    from 1%positive (liftThunk (step (Ok 10%nat))) in
  let before := (run r1 noArgs initial).2 in
  let r2 := ifSuccess 2%positive (fun _ _ => logs (called "effect")) r1 in
  let after := (run r1 noArgs before).2 in
  let once := (run r2 noArgs after).2 in
  let twice := (run r2 noArgs once).2 in
  (forall args, bumped stepCalls (run r2 args))
  /\ (run r1 noArgs before).1 = (run r1 noArgs initial).1
  /\ events (user after) = []
  /\ events (user twice) = [called "effect"; called "effect"]
  /\ stepCalls (user twice) = 4%nat.
Proof.
  intros r1 before r2 after once twice.
  split; [|repeat split].
  destruct (combinators_evaluate_receiver_once (P := params) (A := nat)
              (A2 := nat) r1 stepCalls) as (_ & _ & _ & HifSuccess & _).
  - intros args w. reflexivity.
  - apply HifSuccess. intros value extras w. reflexivity.
Defined.

End ImmutabilityWitness.

(** * Further properties of the code *)

(** ** What each combinator does with the outcome of the receiver *)

Section CombinatorOutcomes.

Context {P : Params} {A A2 : Type}.

Import ResultFlow.

Variables (this : ResultFlow A) (l : positive) (args : RunArgs) (w : World).

Let extras : Extras := {| context := contextOf args |}.
Let w0 : World := setContext l (contextOf args) w.

(** [run] of a flow built on an [async] builder settles the completion of
    its body. *)
Lemma run_async_builder {B} (body : ResultFlowHelpers -> Extras -> M B) :
  run (of_ l (fun h ex => call (async (body h ex)))) args w
  = settle (body helpers extras w0).
Proof.
  rewrite run_of, await_call_async. fold extras w0. unfold settle.
  destruct (body helpers extras w0) as [[value|[error|fault]] w'];
    reflexivity.
Qed.

(** [map(f)] on a success: the outcome is what [f(value, extras)] makes of
    the value; a fault thrown by [f] rejects the run. *)
Theorem map_on_success (f : A -> Extras -> M A2) (value : A) (w1 : World) :
  run this (withExtras extras) w0 = (Fulfilled (Ok value), w1) ->
  run (map l f this) args w = settle (f value extras w1).
Proof.
  intros Hrun. unfold map. rewrite run_async_builder, bind_tryTo_run.
  fold extras w0. rewrite Hrun. reflexivity.
Qed.

(** [mapError(f)]: a success goes through untouched and [f] is not called;
    a failure becomes [f(error, extras)]. *)
Theorem mapError_outcomes (f : FailureT -> Extras -> M FailureT) :
  (forall (value : A) (w1 : World),
      run this (withExtras extras) w0 = (Fulfilled (Ok value), w1) ->
      run (mapError l f this) args w = (Fulfilled (Ok value), w1))
  /\ (forall (error error' : FailureT) (w1 w2 : World),
        run this (withExtras extras) w0 = (Fulfilled (Err error), w1) ->
        f error extras w1 = (Normal error', w2) ->
        run (mapError l f this) args w = (Fulfilled (Err error'), w2)).
Proof.
  split.
  - intros value w1 Hrun. unfold mapError.
    rewrite run_async_builder, bind_await_run. fold extras w0.
    rewrite Hrun. reflexivity.
  - intros error error' w1 w2 Hrun Hf. unfold mapError.
    rewrite run_async_builder, bind_await_run. fold extras w0.
    rewrite Hrun. unfold bind. rewrite Hf. reflexivity.
Qed.

(** [chain(f)] on a success: the outcome is the one of what [f] returns,
    a result taken as it is, a flow evaluated with the same extras. *)
Theorem chain_on_success (f : A -> Extras -> M (PolymorphicResult A2))
    (value : A) (w1 : World) :
  run this (withExtras extras) w0 = (Fulfilled (Ok value), w1) ->
  (forall (result : Result A2) (w2 : World),
      f value extras w1 = (Normal (resultValue (Fulfilled result)), w2) ->
      run (chain l f this) args w = (Fulfilled result, w2))
  /\ (forall (flow : ResultFlow A2) (w2 : World),
        f value extras w1 = (Normal (flowValue flow), w2) ->
        run (chain l f this) args w = run flow (withExtras extras) w2).
Proof.
  intros Hrun. split.
  - intros result w2 Hf. unfold chain.
    rewrite run_async_builder, bind_tryTo_run. fold extras w0.
    rewrite Hrun. unfold bind at 1. rewrite Hf. rewrite await_tryTo.
    destruct result; reflexivity.
  - intros flow w2 Hf. unfold chain.
    rewrite run_async_builder, bind_tryTo_run. fold extras w0.
    rewrite Hrun. unfold bind at 1. rewrite Hf. rewrite await_tryTo_run.
    pose proof (run_never_interrupted flow (withExtras extras) w2) as Hnever.
    destruct (run flow (withExtras extras) w2) as [[[v|e]|[e|x]] w3];
      try reflexivity.
    now destruct (Hnever w3 e).
Qed.

(** [ifSuccess(f)] on a success: [f] runs once on the value, and the value
    is the outcome, whatever [f] returns. *)
Theorem ifSuccess_on_success (f : A -> Extras -> M unit) (value : A)
    (w1 w2 : World) :
  run this (withExtras extras) w0 = (Fulfilled (Ok value), w1) ->
  f value extras w1 = (Normal tt, w2) ->
  run (ifSuccess l f this) args w = (Fulfilled (Ok value), w2).
Proof.
  intros Hrun Hf. unfold ifSuccess. rewrite run_async_builder. simpl context.
  rewrite bind_tryTo_run. fold extras w0. rewrite Hrun. unfold bind.
  rewrite Hf. reflexivity.
Qed.

(** [ifFailure(f)]: a success goes through and [f] is not called; on a
    failure [f] runs once on the error and the flow stays failed with it. *)
Theorem ifFailure_outcomes (f : FailureT -> Extras -> M unit) :
  (forall (value : A) (w1 : World),
      run this (withExtras extras) w0 = (Fulfilled (Ok value), w1) ->
      run (ifFailure l f this) args w = (Fulfilled (Ok value), w1))
  /\ (forall (error : FailureT) (w1 w2 : World),
        run this (withExtras extras) w0 = (Fulfilled (Err error), w1) ->
        f error extras w1 = (Normal tt, w2) ->
        run (ifFailure l f this) args w = (Fulfilled (Err error), w2)).
Proof.
  split.
  - intros value w1 Hrun. unfold ifFailure.
    rewrite run_async_builder, bind_await_run. fold extras w0.
    rewrite Hrun. reflexivity.
  - intros error w1 w2 Hrun Hf. unfold ifFailure.
    rewrite run_async_builder, bind_await_run. fold extras w0.
    rewrite Hrun. unfold bind. rewrite Hf. reflexivity.
Qed.

(** [orElse(alternative)]: a success is kept and the alternative is not
    called; on a failure the outcome is the one of what the alternative
    returns, a result taken as it is, a flow evaluated with the same
    extras. *)
Theorem orElse_outcomes
    (alternative : FailureT -> Extras -> M (PolymorphicResult A)) :
  (forall (value : A) (w1 : World),
      run this (withExtras extras) w0 = (Fulfilled (Ok value), w1) ->
      run (orElse l alternative this) args w = (Fulfilled (Ok value), w1))
  /\ (forall (error : FailureT) (result : Result A) (w1 w2 : World),
        run this (withExtras extras) w0 = (Fulfilled (Err error), w1) ->
        alternative error extras w1
          = (Normal (resultValue (Fulfilled result)), w2) ->
        run (orElse l alternative this) args w = (Fulfilled result, w2))
  /\ (forall (error : FailureT) (flow : ResultFlow A) (w1 w2 : World),
        run this (withExtras extras) w0 = (Fulfilled (Err error), w1) ->
        alternative error extras w1 = (Normal (flowValue flow), w2) ->
        run (orElse l alternative this) args w
        = run flow (withExtras extras) w2).
Proof.
  split; [|split].
  - intros value w1 Hrun. unfold orElse.
    rewrite run_async_builder, bind_await_run. fold extras w0.
    rewrite Hrun. reflexivity.
  - intros error result w1 w2 Hrun Halt. unfold orElse.
    rewrite run_async_builder, bind_await_run. fold extras w0.
    rewrite Hrun. unfold bind at 1. rewrite Halt, await_tryTo.
    destruct result; reflexivity.
  - intros error flow w1 w2 Hrun Halt. unfold orElse.
    rewrite run_async_builder, bind_await_run. fold extras w0.
    rewrite Hrun. unfold bind at 1. rewrite Halt, await_tryTo_run.
    pose proof (run_never_interrupted flow (withExtras extras) w2) as Hnever.
    destruct (run flow (withExtras extras) w2) as [[[v|e]|[e|x]] w3];
      try reflexivity.
    now destruct (Hnever w3 e).
Qed.

(** No combinator catches a fault of the receiver: the derived flow rejects
    with the same fault, in the world the receiver left, and none of the
    callbacks runs. *)
Theorem receiver_fault_passes_through (fault : FaultT) (w1 : World) :
  run this (withExtras extras) w0 = (Rejected (Fault fault), w1) ->
  (forall f : A -> Extras -> M A2,
      run (map l f this) args w = (Rejected (Fault fault), w1))
  /\ (forall f : FailureT -> Extras -> M FailureT,
        run (mapError l f this) args w = (Rejected (Fault fault), w1))
  /\ (forall f : A -> Extras -> M (PolymorphicResult A2),
        run (chain l f this) args w = (Rejected (Fault fault), w1))
  /\ (forall f : A -> Extras -> M unit,
        run (ifSuccess l f this) args w = (Rejected (Fault fault), w1))
  /\ (forall f : FailureT -> Extras -> M unit,
        run (ifFailure l f this) args w = (Rejected (Fault fault), w1))
  /\ (forall alternative : FailureT -> Extras -> M (PolymorphicResult A),
        run (orElse l alternative this) args w
        = (Rejected (Fault fault), w1))
  /\ (forall config : RetryConfig,
        run (retryPolicy l config this) args w
        = (Rejected (Fault fault), w1)).
Proof.
  intros Hrun. repeat split; intros f.
  - unfold map. rewrite run_async_builder, bind_tryTo_run. fold extras w0.
    now rewrite Hrun.
  - unfold mapError. rewrite run_async_builder, bind_await_run.
    fold extras w0. now rewrite Hrun.
  - unfold chain. rewrite run_async_builder, bind_tryTo_run. fold extras w0.
    now rewrite Hrun.
  - unfold ifSuccess. rewrite run_async_builder. simpl context.
    rewrite bind_tryTo_run. fold extras w0. now rewrite Hrun.
  - unfold ifFailure. rewrite run_async_builder, bind_await_run.
    fold extras w0. now rewrite Hrun.
  - unfold orElse. rewrite run_async_builder, bind_await_run.
    fold extras w0. now rewrite Hrun.
  - unfold retryPolicy. rewrite run_async_builder. fold extras w0.
    destruct (Z.to_nat (maxRetriesOf f)) as [|remaining].
    + rewrite retryLoop_0, await_tryTo_run. now rewrite Hrun.
    + rewrite retryLoop_S. now rewrite Hrun.
Qed.

End CombinatorOutcomes.

Section CombinatorOutcomesWitness.

#[local] Existing Instance Probe.params.

Import ResultFlow Probe.

Let succeeding : ResultFlow nat := from 1%positive (liftThunk (step (Ok 5%nat))).
Let failing : ResultFlow nat :=
  from 1%positive (liftThunk (step (Err "not-found"%string))).
Let faulting : ResultFlow nat :=
  from 1%positive (liftValue (Rejected (Fault "boom"%string))).

Let increment : nat -> Extras -> M (PolymorphicResult nat) :=
  fun v _ => ret (resultValue (Fulfilled (Ok (v + 1)%nat))).
Let thenInvalid : nat -> Extras -> M (PolymorphicResult nat) :=
  fun _ _ => ret (flowValue
    (from 3%positive (liftThunk (step (Err "invalid"%string))))).
Let retrySucceeding : string -> Extras -> M (PolymorphicResult nat) :=
  fun _ _ => ret (flowValue succeeding).

Let wrap : string -> Extras -> M string :=
  fun e _ => do logs (called "wrap") ;; ret ("wrapped: " +:+ e).
Let effect {X} : X -> Extras -> M unit := fun _ _ => logs (called "effect").
Let fallback : string -> Extras -> M (PolymorphicResult nat) :=
  fun _ _ => do logs (called "alternative") ;;
             ret (resultValue (Fulfilled (Ok 0%nat))).

Lemma map_on_success_witness :
  exists w' : World,
    run (map 2%positive (fun v _ => do logs (called "double") ;; ret (2 * v)%nat)
           succeeding) noArgs initial
    = (Fulfilled (Ok 10%nat), w')
    /\ events (user w') = [called "double"].
Proof.
  eexists. split.
  - erewrite (map_on_success (A := nat) (A2 := nat)) by reflexivity.
    reflexivity.
  - reflexivity.
Defined.

Lemma mapError_outcomes_witness :
  (exists w' : World,
      run (mapError 2%positive wrap succeeding) noArgs initial
      = (Fulfilled (Ok 5%nat), w')
      /\ events (user w') = [])
  /\ (exists w' : World,
        run (mapError 2%positive wrap failing) noArgs initial
        = (Fulfilled (Err "wrapped: not-found"%string), w')
        /\ events (user w') = [called "wrap"]).
Proof.
  destruct (mapError_outcomes succeeding 2%positive noArgs initial wrap)
    as [Hsuccess _].
  destruct (mapError_outcomes failing 2%positive noArgs initial wrap)
    as [_ Hfailure].
  split; eexists; (split; [|shelve]).
  - eapply Hsuccess. reflexivity.
  - eapply Hfailure; reflexivity.
  Unshelve. all: reflexivity.
Defined.

Lemma chain_on_success_witness :
  (exists w' : World,
      run (chain 2%positive increment succeeding) noArgs initial
      = (Fulfilled (Ok 6%nat), w'))
  /\ (exists w' : World,
        run (chain 2%positive thenInvalid succeeding) noArgs initial
        = (Fulfilled (Err "invalid"%string), w')
        /\ stepCalls (user w') = 2%nat).
Proof.
  destruct (chain_on_success succeeding 2%positive noArgs initial increment
              5%nat _ eq_refl) as [Hresult _].
  destruct (chain_on_success succeeding 2%positive noArgs initial thenInvalid
              5%nat _ eq_refl) as [_ Hflow].
  split.
  - eexists. apply Hresult. reflexivity.
  - eexists. split; [|shelve]. erewrite Hflow by reflexivity. reflexivity.
  Unshelve. reflexivity.
Defined.

Lemma ifSuccess_on_success_witness :
  exists w' : World,
    run (ifSuccess 2%positive effect succeeding) noArgs initial
    = (Fulfilled (Ok 5%nat), w')
    /\ events (user w') = [called "effect"].
Proof.
  eexists. split; [|shelve].
  eapply (ifSuccess_on_success succeeding 2%positive noArgs initial effect);
    reflexivity.
  Unshelve. reflexivity.
Defined.

Lemma ifFailure_outcomes_witness :
  (exists w' : World,
      run (ifFailure 2%positive effect succeeding) noArgs initial
      = (Fulfilled (Ok 5%nat), w')
      /\ events (user w') = [])
  /\ (exists w' : World,
        run (ifFailure 2%positive effect failing) noArgs initial
        = (Fulfilled (Err "not-found"%string), w')
        /\ events (user w') = [called "effect"]).
Proof.
  destruct (ifFailure_outcomes succeeding 2%positive noArgs initial effect)
    as [Hsuccess _].
  destruct (ifFailure_outcomes failing 2%positive noArgs initial effect)
    as [_ Hfailure].
  split; eexists; (split; [|shelve]).
  - eapply Hsuccess. reflexivity.
  - eapply Hfailure; reflexivity.
  Unshelve. all: reflexivity.
Defined.

Lemma orElse_outcomes_witness :
  (exists w' : World,
      run (orElse 2%positive fallback succeeding) noArgs initial
      = (Fulfilled (Ok 5%nat), w')
      /\ events (user w') = [])
  /\ (exists w' : World,
        run (orElse 2%positive fallback failing) noArgs initial
        = (Fulfilled (Ok 0%nat), w')
        /\ events (user w') = [called "alternative"])
  /\ (exists w' : World,
        run (orElse 2%positive retrySucceeding failing) noArgs initial
        = (Fulfilled (Ok 5%nat), w')
        /\ stepCalls (user w') = 2%nat).
Proof.
  destruct (orElse_outcomes succeeding 2%positive noArgs initial fallback)
    as (Hsuccess & _ & _).
  destruct (orElse_outcomes failing 2%positive noArgs initial fallback)
    as (_ & Hresult & _).
  destruct (orElse_outcomes failing 2%positive noArgs initial retrySucceeding)
    as (_ & _ & Hflow).
  split; [|split]; eexists; (split; [|shelve]).
  - eapply Hsuccess. reflexivity.
  - eapply Hresult; reflexivity.
  - erewrite Hflow by reflexivity. reflexivity.
  Unshelve. all: reflexivity.
Defined.

Lemma receiver_fault_passes_through_witness :
  exists w' : World,
    events (user w') = []
    /\ forall f : nat -> Extras -> M nat,
         run (map 2%positive f faulting) noArgs initial
         = (Rejected (Fault "boom"%string), w').
Proof.
  eexists. split; [shelve|].
  eapply (receiver_fault_passes_through (A2 := nat) faulting 2%positive
            noArgs initial).
  reflexivity.
  Unshelve. reflexivity.
Defined.

End CombinatorOutcomesWitness.

(** ** How the combinators compose *)

Section CombinatorLaws.

Context {P : Params} {A A2 A3 : Type}.

Import ResultFlow.

(** [map] by the outcome of the receiver. *)
Lemma run_map_eq {B B2} (receiver : ResultFlow B) (l : positive)
    (f : B -> Extras -> M B2) (args : RunArgs) (w : World) :
  run (map l f receiver) args w
  = match run receiver (withExtras {| context := contextOf args |})
            (setContext l (contextOf args) w) with
    | (Fulfilled (Ok value), w1) =>
        settle (f value {| context := contextOf args |} w1)
    | (Fulfilled (Err error), w1) => (Fulfilled (Err error), w1)
    | (Rejected reason, w1) => settle (Throw reason, w1)
    end.
Proof.
  unfold map. rewrite run_async_builder, bind_tryTo_run.
  destruct (run receiver _ _) as [[[v|e]|[e|x]] w1]; reflexivity.
Qed.

Variables (this : ResultFlow A) (args : RunArgs) (w : World).

Let extras : Extras := {| context := contextOf args |}.

(** [run] gives one of three outcomes: a success, a failure, or a
    rejection by a fault; the interruption signal never leaves it. *)
Theorem run_outcomes :
  exists w' : World,
    (exists value : A, run this args w = (Fulfilled (Ok value), w'))
    \/ (exists error : FailureT, run this args w = (Fulfilled (Err error), w'))
    \/ (exists fault : FaultT, run this args w = (Rejected (Fault fault), w')).
Proof.
  pose proof (run_never_interrupted this args w) as Hnever.
  destruct (run this args w) as [[[value|error]|[error|fault]] w'];
    exists w'; eauto.
  now destruct (Hnever w' error).
Qed.

(** Mapping the function that returns its argument changes nothing: the
    derived flow gives what the receiver gives. *)
Theorem map_identity (l : positive) :
  run (map l (fun value _ => ret value) this) args w
  = run this (withExtras extras) (setContext l (contextOf args) w).
Proof.
  unfold map. rewrite run_async_builder, bind_tryTo_run. fold extras.
  pose proof (run_never_interrupted this (withExtras extras)
                (setContext l (contextOf args) w)) as Hnever.
  destruct (run this (withExtras extras) _) as [[[v|e]|[e|x]] w1];
    try reflexivity.
  now destruct (Hnever w1 e).
Qed.

(** Two [map]s in a row do what one [map] of the two callbacks in sequence
    does; the second callback does not run when the first one throws. *)
Theorem map_fusion (l1 l2 : positive)
    (f : A -> Extras -> M A2) (g : A2 -> Extras -> M A3) :
  run (map l2 g (map l1 f this)) args w
  = run (map l1 (fun value ex => x <- f value ex ;; g x ex) this)
        (withExtras extras) (setContext l2 (contextOf args) w).
Proof.
  rewrite !run_map_eq. simpl contextOf. fold extras.
  destruct (run this (withExtras extras) _) as [[[v|e]|[e|x]] w1];
    try reflexivity.
  unfold bind, settle.
  destruct (f v extras w1) as [[x|[e|y]] w2]; reflexivity.
Qed.

(** Chaining the function that wraps its argument in a success changes
    nothing. *)
Theorem chain_of_success_identity (l : positive) :
  run (chain l (fun value _ => ret (resultValue (Fulfilled (Ok value)))) this)
      args w
  = run this (withExtras extras) (setContext l (contextOf args) w).
Proof.
  unfold chain. rewrite run_async_builder, bind_tryTo_run. fold extras.
  pose proof (run_never_interrupted this (withExtras extras)
                (setContext l (contextOf args) w)) as Hnever.
  destruct (run this (withExtras extras) _) as [[[v|e]|[e|x]] w1];
    try reflexivity.
  now destruct (Hnever w1 e).
Qed.

(** [map] is the [chain] of a callback that wraps its value in a success,
    [ifSuccess] the [map] of a callback that returns the value it was given,
    and [ifFailure] the [mapError] of a callback that returns the error it
    was given. *)
Theorem combinators_by_one_another (l : positive) :
  (forall f : A -> Extras -> M A2,
      run (map l f this) args w
      = run (chain l (fun value ex =>
               x <- f value ex ;; ret (resultValue (Fulfilled (Ok x)))) this)
            args w)
  /\ (forall f : A -> Extras -> M unit,
        run (ifSuccess l f this) args w
        = run (map l (fun value ex => do f value ex ;; ret value) this)
              args w)
  /\ (forall f : FailureT -> Extras -> M unit,
        run (ifFailure l f this) args w
        = run (mapError l (fun error ex => do f error ex ;; ret error) this)
              args w).
Proof.
  split; [|split]; intros f.
  - unfold map, chain. rewrite !run_async_builder, !bind_tryTo_run.
    destruct (run this _ _) as [[[v|e]|[e|x]] w1]; try reflexivity.
    unfold bind, settle.
    destruct (f v _ w1) as [[x|[e|y]] w2]; reflexivity.
  - unfold ifSuccess, map. rewrite !run_async_builder. simpl context.
    rewrite !bind_tryTo_run. reflexivity.
  - unfold ifFailure, mapError. rewrite !run_async_builder, !bind_await_run.
    destruct (run this _ _) as [[[v|e]|[e|x]] w1]; try reflexivity.
    unfold bind, settle.
    destruct (f e _ w1) as [[[]|[e'|y]] w2]; reflexivity.
Qed.

End CombinatorLaws.

(** ** More on the retry policy *)

Section RetryDegenerate.

Context {P : Params} {A : Type}.

Import ResultFlow.

Variables (this : ResultFlow A) (config : RetryConfig).

(** With [maxRetries <= 0] the retried flow is the receiver: one evaluation
    with the same extras, the same outcome, and neither [condition] nor
    [beforeRetry] is called. *)
Theorem retryPolicy_without_retries (l : positive) (args : RunArgs)
    (w : World) :
  maxRetriesOf config <= 0 ->
  run (retryPolicy l config this) args w
  = run this (withExtras {| context := contextOf args |})
        (setContext l (contextOf args) w).
Proof.
  intros Hmax. unfold retryPolicy. rewrite run_async_builder.
  replace (Z.to_nat (maxRetriesOf config)) with 0%nat by lia.
  rewrite retryLoop_0, await_tryTo_run.
  pose proof (run_never_interrupted this
                (withExtras {| context := contextOf args |})
                (setContext l (contextOf args) w)) as Hnever.
  destruct (run this _ _) as [[[v|e]|[e|x]] w1]; try reflexivity.
  now destruct (Hnever w1 e).
Qed.

End RetryDegenerate.

Section RetryUntilSuccess.

Context {P : Params} {A : Type}.

Import ResultFlow.

Variables (this : ResultFlow A) (config : RetryConfig).
Variables (calls : UserState -> nat) (retries : UserState -> list Z).
Variable before : FailureT -> Z -> M unit.
Variable succeedsAt : nat.

Hypothesis Hbefore : beforeRetry config = Some before.

(** Every evaluation of the receiver is counted by [calls]; it fails, with
    an error that the condition accepts, while [calls] is below
    [succeedsAt], and succeeds from then on. *)
Hypothesis Hrun : forall (args : RunArgs) (w : World),
  exists w' : World,
    calls (user w') = S (calls (user w))
    /\ retries (user w') = retries (user w)
    /\ ((calls (user w) < succeedsAt)%nat ->
        exists error : FailureT,
          run this args w = (Fulfilled (Err error), w')
          /\ forall w1 : World, exists w2 : World,
               conditionOf config error w1 = (Normal true, w2)
               /\ calls (user w2) = calls (user w1)
               /\ retries (user w2) = retries (user w1))
    /\ ((succeedsAt <= calls (user w))%nat ->
        exists value : A, run this args w = (Fulfilled (Ok value), w')).

Hypothesis Hlogged : forall (error : FailureT) (k : Z) (w : World),
  exists w' : World,
    before error k w = (Normal tt, w')
    /\ calls (user w') = calls (user w)
    /\ retries (user w') = retries (user w) ++ [k].

Lemma retryLoop_succeeds (extras : Extras) (remaining : nat) :
  forall (i : Z) (w : World),
    (succeedsAt - calls (user w) <= remaining)%nat ->
    (calls (user w) <= succeedsAt)%nat ->
    exists (value : A) (w' : World),
      retryLoop helpers config this extras remaining i w = (Normal value, w')
      /\ calls (user w') = S succeedsAt
      /\ retries (user w')
         = retries (user w)
             ++ seqZ (i + 1) (Z.of_nat (succeedsAt - calls (user w))).
Proof.
  induction remaining as [|remaining IH]; intros i w Hremain Hbelow.
  - destruct (Hrun (withExtras extras) w) as (w1 & Hc1 & Hr1 & _ & Hok).
    destruct Hok as [value Hvalue]; [lia|].
    exists value, w1. rewrite retryLoop_0, await_tryTo_run, Hvalue.
    repeat split.
    + lia.
    + replace (succeedsAt - calls (user w))%nat with 0%nat by lia.
      simpl. now rewrite app_nil_r.
  - destruct (Hrun (withExtras extras) w) as (w1 & Hc1 & Hr1 & Herr & Hok).
    rewrite retryLoop_S.
    destruct (Nat.ltb_spec (calls (user w)) succeedsAt) as [Hlt|Hge].
    + destruct (Herr Hlt) as (error & Hfail & Hcond).
      destruct (Hcond w1) as (w2 & Haccept & Hc2 & Hr2).
      destruct (Hlogged error (i + 1) w2) as (w3 & Hcall & Hc3 & Hr3).
      destruct (delay_wait_user (retryStrategyOf config) (i + 1) w3)
        as (w4 & Hwait & Hu4).
      assert (Hc4 : calls (user w4) = S (calls (user w)))
        by (rewrite Hu4, Hc3, Hc2, Hc1; reflexivity).
      destruct (IH (i + 1) w4) as (value & w' & Hloop & Hc & Hr);
        [lia|lia|].
      exists value, w'.
      rewrite Hfail. unfold bind at 1. rewrite Haccept, Hbefore.
      unfold bind at 1. rewrite Hcall. unfold bind at 1. cbv zeta.
      rewrite Hwait. repeat split; try assumption.
      rewrite Hr, Hc4, Hu4, Hr3, Hr2, Hr1, <- app_assoc. f_equal.
      rewrite (seqZ_cons (i + 1)) by lia. simpl. do 2 f_equal; lia.
    + destruct (Hok Hge) as [value Hvalue].
      exists value, w1. rewrite Hvalue. repeat split.
      * lia.
      * replace (succeedsAt - calls (user w))%nat with 0%nat by lia.
        simpl. now rewrite app_nil_r.
Qed.

(** The receiver fails [k] times, with errors that the condition accepts,
    and succeeds at the next evaluation; [k] is at most [maxRetries].  Then
    the retried flow succeeds: the receiver was evaluated [k + 1] times and
    [beforeRetry] was called [k] times, with the retry numbers [1 .. k]. *)
Theorem retry_stops_at_first_success
    (l : positive) (n : Z) (k : nat) (args : RunArgs) (w : World) :
  maxRetries config = Some n ->
  succeedsAt = (calls (user w) + k)%nat ->
  Z.of_nat k <= n ->
  exists (value : A) (w' : World),
    run (retryPolicy l config this) args w = (Fulfilled (Ok value), w')
    /\ calls (user w') = (calls (user w) + k + 1)%nat
    /\ retries (user w') = retries (user w) ++ seqZ 1 (Z.of_nat k).
Proof.
  intros Hmax Hat Hk.
  destruct (retryLoop_succeeds {| context := contextOf args |}
              (Z.to_nat n) 0 (setContext l (contextOf args) w))
    as (value & w' & Hloop & Hc & Hr); simpl; [lia|lia|].
  exists value, w'. unfold retryPolicy. rewrite run_async_builder.
  unfold maxRetriesOf. rewrite Hmax. simpl default. rewrite Hloop.
  simpl in Hr. repeat split; [lia|].
  rewrite Hr. do 2 f_equal. lia.
Qed.

End RetryUntilSuccess.

Section RetryWaits.

Context {P : Params} {A : Type}.

Import ResultFlow.

Variables (this : ResultFlow A) (config : RetryConfig).

(** Every evaluation of the receiver fails with an error that the condition
    accepts, [beforeRetry] returns, and none of them waits. *)
Hypothesis Hfails : forall (args : RunArgs) (w : World),
  exists (error : FailureT) (w' : World),
    run this args w = (Fulfilled (Err error), w')
    /\ slept w' = slept w
    /\ forall w1 : World, exists w2 : World,
         conditionOf config error w1 = (Normal true, w2)
         /\ slept w2 = slept w1.

Hypothesis Hbefore : forall (before : FailureT -> Z -> M unit)
    (error : FailureT) (k : Z) (w : World),
  beforeRetry config = Some before ->
  exists w' : World, before error k w = (Normal tt, w') /\ slept w' = slept w.




End RetryWaits.

Section MoreRetryWitnesses.

#[local] Existing Instance Probe.params.

Import ResultFlow Probe.

Let alwaysFailing : ResultFlow nat :=
  from 1%positive (liftThunk (step (Err "error"%string))).
Let noRetries : RetryConfig :=
  {| beforeRetry := Some beforeRetryMock; condition := None;
     maxRetries := Some (-1); retryStrategy := None |}.
Let fiveRetries : RetryConfig :=
  {| beforeRetry := Some beforeRetryMock; condition := None;
     maxRetries := Some 5; retryStrategy := None |}.
Let failingTwice : ResultFlow nat :=
  from 1%positive (liftThunk (stepByCall (fun c =>
    if (c <? 2)%nat then Err "error"%string else Ok 10%nat))).

(** The test with [maxRetries = -1]: one call of the step, none of
    [beforeRetry]. *)
Lemma retryPolicy_without_retries_witness :
  run (retryPolicy 2%positive noRetries alwaysFailing) noArgs initial
  = run alwaysFailing (withExtras {| context := contextOf noArgs |})
        (setContext 2%positive (contextOf noArgs) initial)
  /\ stepCalls
       (user (run (retryPolicy 2%positive noRetries alwaysFailing) noArgs
                  initial).2) = 1%nat.
Proof.
  split; [|reflexivity].
  apply retryPolicy_without_retries.
  unfold maxRetriesOf, noRetries. simpl. lia.
Defined.

(** The test that stops retrying at the first success: two failures, then
    a success, with five retries allowed. *)
Lemma retry_stops_at_first_success_witness :
  exists (value : nat) (w' : World),
    run (retryPolicy 2%positive fiveRetries failingTwice) noArgs initial
    = (Fulfilled (Ok value), w')
    /\ stepCalls (user w') = (stepCalls (user initial) + 2 + 1)%nat
    /\ retryNumbers (user w')
       = retryNumbers (user initial) ++ seqZ 1 (Z.of_nat 2).
Proof.
  apply (retry_stops_at_first_success failingTwice fiveRetries stepCalls
           retryNumbers beforeRetryMock 2%nat) with (n := 5).
  - reflexivity.
  - intros args w. exists (run failingTwice args w).2.
    unfold failingTwice, from. rewrite !run_of, !await_call_async. simpl.
    unfold bind, stepByCall. simpl.
    destruct (Nat.ltb_spec (stepCalls (user w)) 2) as [Hlt|Hge]; simpl;
      (split; [reflexivity|]; split; [reflexivity|]; split; intros Hcalls;
       try lia).
    + exists "error"%string. split; [reflexivity|].
      intros w1. eexists. repeat split.
    + exists 10%nat. reflexivity.
  - intros error k w. eexists. split; [reflexivity|].
    split; [reflexivity|]. apply retryNumbers_logged.
  - reflexivity.
  - reflexivity.
  - lia.
Defined.


End MoreRetryWitnesses.

(** ** More on the periodic supervisor *)

Section PeriodicFaults.

Context {P : Params} {A R : Type}.

Import ResultFlow.

Variables (this : ResultFlow A) (config : PeriodicConfig R).

(** A fault during a tick stops nothing and notifies nobody: when the
    evaluation of the receiver rejects, or when [recoveryAction] throws, the
    promise of the callback rejects with what was thrown, in the world that
    was reached; the timer is not cleared and [onInterruption] is not
    called. *)
Theorem tick_fault_is_not_reported
    (w0 wstart : World) (session : PeriodicSession) :
  runPeriodically config this w0 = (Normal session, wstart) ->
  let current w := withExtras {| context := contexts w !! self this |} in
  (forall (w w1 : World) (reason : Thrown),
      run this (current w) w = (Rejected reason, w1) ->
      onTick session w = (Rejected reason, w1))
  /\ (forall (w w1 w2 : World) (error : FailureT) (reason : Thrown)
             (recover : FailureT -> M (PolymorphicResult R)),
        recoveryAction config = Some recover ->
        run this (current w) w = (Fulfilled (Err error), w1) ->
        recover error w1 = (Throw reason, w2) ->
        onTick session w = (Rejected reason, w2)).
Proof.
  intros Hstart current.
  destruct (runPeriodically_starts this config w0)
    as (s & ws & Hs & Hid & Htick & _).
  rewrite Hstart in Hs. injection Hs as <- <-.
  split.
  - intros w w1 reason Hrun. rewrite Htick, tick_eq.
    fold (current w). rewrite Hrun. reflexivity.
  - intros w w1 w2 error reason recover Hsome Hrun Hthrown.
    rewrite Htick, tick_eq. fold (current w). rewrite Hrun.
    unfold async, recoverOrStop. rewrite Hsome.
    unfold bind at 1. unfold bind at 1. unfold bind at 1.
    rewrite Hthrown. reflexivity.
Qed.

End PeriodicFaults.

Section PeriodicSessions.

Context {P : Params} {A1 A2 R1 R2 : Type}.

Import ResultFlow.

Variables (first : ResultFlow A1) (config1 : PeriodicConfig R1).
Variables (second : ResultFlow A2) (config2 : PeriodicConfig R2).

(** The [onInterruption] of the first session leaves the timers alone. *)
Hypothesis Hcallback : forall (param : Interruption) (w : World),
  intervals (optionalCall (onInterruption config1) param w).2 = intervals w.

(** Stopping one session leaves another one running.  The second session
    gets another timer than the first.  [interrupt()] of the first clears
    the first timer only: the second is as it was, and its next timer event
    still runs its callback.  The same when the first session stops itself
    after a failure without recovery: its timer is cleared and the second
    one is as the evaluation left it. *)
Theorem stopping_one_session_leaves_the_other_running
    (w0 w1 w w2 : World) (session1 session2 : PeriodicSession) :
  runPeriodically config1 first w0 = (Normal session1, w1) ->
  runPeriodically config2 second w = (Normal session2, w2) ->
  (nextInterval w1 <= nextInterval w)%nat ->
  let id1 := intervalId session1 in
  let id2 := intervalId session2 in
  id1 <> id2
  /\ (forall w' : World,
        let after := (interrupt session1 w').2 in
        intervals after !! id1 = None
        /\ intervals after !! id2 = intervals w' !! id2
        /\ (is_Some (intervals w' !! id2) ->
            fire session2 after
            = (Normal tt, (tick second config2 id2 after).2)))
  /\ (forall (w' w1' : World) (error : FailureT),
        is_Some (intervals w' !! id1) ->
        recoveryAction config1 = None ->
        run first (withExtras {| context := contexts w' !! self first |}) w'
          = (Fulfilled (Err error), w1') ->
        let after := (fire session1 w').2 in
        intervals after !! id1 = None
        /\ intervals after !! id2 = intervals w1' !! id2
        /\ (is_Some (intervals w1' !! id2) ->
            fire session2 after
            = (Normal tt, (tick second config2 id2 after).2))).
Proof.
  intros Hfirst Hsecond Hlater id1 id2.
  destruct (runPeriodically_starts first config1 w0)
    as (s1 & ws1 & Hs1 & Hid1 & Htick1 & Hinterrupt1 & _).
  rewrite Hfirst in Hs1. injection Hs1 as <- <-.
  destruct (runPeriodically_starts second config2 w)
    as (s2 & ws2 & Hs2 & Hid2 & Htick2 & _).
  rewrite Hsecond in Hs2. injection Hs2 as <- <-.
  assert (Hnext : nextInterval w1 = S (nextInterval w0)).
  { unfold runPeriodically, bind, setInterval, ret in Hfirst.
    injection Hfirst as _ <-. reflexivity. }
  assert (Hdistinct : id1 <> id2) by (unfold id1, id2; lia).
  assert (Hfire : forall after : World,
    is_Some (intervals after !! id2) ->
    fire session2 after = (Normal tt, (tick second config2 id2 after).2)).
  { intros after Harmed. rewrite fire_armed by exact Harmed.
    rewrite Htick2. unfold id2. rewrite Hid2. reflexivity. }
  assert (Hstopped : forall (param : Interruption) (w' : World),
    let after := (optionalCall (onInterruption config1) param
                    (cleared id1 w')).2 in
    intervals after !! id1 = None
    /\ intervals after !! id2 = intervals w' !! id2).
  { intros param w' after. unfold after. rewrite Hcallback.
    unfold cleared. simpl. split.
    - apply lookup_delete_eq.
    - now apply lookup_delete_ne. }
  split; [exact Hdistinct|]. split.
  - intros w' after.
    assert (Hafter : after
      = (optionalCall (onInterruption config1) aborted (cleared id1 w')).2).
    { unfold after. rewrite Hinterrupt1. unfold id1. rewrite Hid1.
      reflexivity. }
    destruct (Hstopped aborted w') as [Hcleared Hother].
    rewrite Hafter. split; [exact Hcleared|]. split; [exact Hother|].
    intros Harmed. apply Hfire. rewrite Hother. exact Harmed.
  - intros w' w1' error Harmed Hnone Hrun after.
    assert (Hafter : after
      = (optionalCall (onInterruption config1) (failure error None)
           (cleared id1 w1')).2).
    { unfold after. rewrite fire_armed by exact Harmed. simpl.
      rewrite Htick1, tick_eq, Hrun, async_world.
      rewrite recoverOrStop_without_recovery by exact Hnone.
      unfold id1. rewrite Hid1. reflexivity. }
    destruct (Hstopped (failure error None) w1') as [Hcleared Hother].
    rewrite Hafter. split; [exact Hcleared|]. split; [exact Hother|].
    intros Harmed2. apply Hfire. rewrite Hother. exact Harmed2.
Qed.

End PeriodicSessions.

Section MorePeriodicWitnesses.

#[local] Existing Instance Probe.params.

Import ResultFlow Probe.

Let faulting : ResultFlow unit :=
  from 1%positive (liftValue (Rejected (Fault "boom"%string))).
Let failing : ResultFlow unit :=
  from 1%positive (liftThunk (step (Err "error"%string))).
Let watched : PeriodicConfig unit :=
  {| recoveryAction := None; onInterruption := Some onInterruptionMock;
     interval := 10 |}.
Let throwingRecovery : PeriodicConfig unit :=
  {| recoveryAction := Some (fun _ => throw (Fault "recovery broke"%string));
     onInterruption := Some onInterruptionMock; interval := 10 |}.

Lemma tick_fault_is_not_reported_witness :
  (exists (session : PeriodicSession) (wstart w1 : World),
      runPeriodically watched faulting initial = (Normal session, wstart)
      /\ onTick session wstart = (Rejected (Fault "boom"%string), w1)
      /\ is_Some (intervals w1 !! intervalId session)
      /\ events (user w1) = [])
  /\ (exists (session : PeriodicSession) (wstart w1 : World),
        runPeriodically throwingRecovery failing initial
        = (Normal session, wstart)
        /\ onTick session wstart
           = (Rejected (Fault "recovery broke"%string), w1)
        /\ is_Some (intervals w1 !! intervalId session)
        /\ events (user w1) = []).
Proof.
  split.
  - destruct (tick_fault_is_not_reported faulting watched initial _ _ eq_refl)
      as [Hrejects _].
    eexists _, _, _. split; [reflexivity|]. split; [|shelve].
    apply Hrejects. reflexivity.
  - destruct (tick_fault_is_not_reported failing throwingRecovery initial
                _ _ eq_refl) as [_ Hthrows].
    eexists _, _, _. split; [reflexivity|]. split; [|shelve].
    eapply Hthrows; reflexivity.
  Unshelve.
  all: split; [eexists; reflexivity|reflexivity].
Defined.

Let ticking : ResultFlow unit := from 2%positive (liftThunk (step (Ok tt))).

(** Two sessions; the first is interrupted, the second still evaluates its
    flow at the next timer event. *)
Lemma stopping_one_session_leaves_the_other_running_witness :
  exists (session1 session2 : PeriodicSession) (w1 w2 : World),
    runPeriodically watched failing initial = (Normal session1, w1)
    /\ runPeriodically watched ticking w1 = (Normal session2, w2)
    /\ intervalId session1 <> intervalId session2
    /\ let after := (interrupt session1 w2).2 in
       intervals after !! intervalId session1 = None
       /\ stepCalls (user after) = 0%nat
       /\ stepCalls (user (fire session2 after).2) = 1%nat
       /\ stepCalls (user (fire session1 (fire session2 after).2).2) = 1%nat.
Proof.
  eexists _, _, _, _. split; [reflexivity|]. split; [reflexivity|].
  destruct (stopping_one_session_leaves_the_other_running failing watched
              ticking watched) with
    (w0 := initial) (w := (runPeriodically watched failing initial).2)
    (w1 := (runPeriodically watched failing initial).2)
    (w2 := (runPeriodically watched ticking
              (runPeriodically watched failing initial).2).2)
    (session1 := {| intervalId := 0%nat;
                    onTick := tick failing watched 0%nat;
                    interrupt := do clearInterval 0%nat ;;
                                 optionalCall (onInterruption watched) aborted |})
    (session2 := {| intervalId := 1%nat;
                    onTick := tick ticking watched 1%nat;
                    interrupt := do clearInterval 1%nat ;;
                                 optionalCall (onInterruption watched) aborted |})
    as (Hdistinct & Hinterrupt & _).
  - intros param w. destruct param; reflexivity.
  - reflexivity.
  - reflexivity.
  - simpl. lia.
  - split; [exact Hdistinct|].
    destruct (Hinterrupt
                (runPeriodically watched ticking
                   (runPeriodically watched failing initial).2).2)
      as (Hcleared & _ & _).
    split; [exact Hcleared|]. repeat split.
Defined.

End MorePeriodicWitnesses.

(** ** [gen]: flows written as generators *)

Section Gen.

Context {P : Params} {V A : Type}.

Import ResultFlow.

(** Awaiting what a generator yielded. *)
Lemma await_yielded (yielded : PolymorphicResult V) (extras : Extras)
    (w : World) :
  match yielded with
  | flowValue flow =>
      ran <- call (run flow (withExtras extras)) ;;
      unwrapped <- tryTo helpers V ran None ;;
      await unwrapped
  | resultValue promise =>
      unwrapped <- tryTo helpers V promise None ;;
      await unwrapped
  end w
  = match
      match yielded with
      | flowValue flow => run flow (withExtras extras) w
      | resultValue promise => (promise, w)
      end
    with
    | (Fulfilled (Ok value), w') => (Normal value, w')
    | (Fulfilled (Err error), w') => (Throw (ResultInterruption error), w')
    | (Rejected reason, w') => (Throw reason, w')
    end.
Proof.
  destruct yielded as [flow|promise].
  - apply await_tryTo_run.
  - apply await_tryTo.
Qed.

(** One turn of the loop of [gen]. *)
Lemma genLoop_yield (extras : Extras) (yielded : PolymorphicResult V)
    (resume : V -> Async (IteratorResult V A)) (w : World) :
  genLoop helpers extras (iteratorYield yielded resume) w
  = match
      match yielded with
      | flowValue flow => run flow (withExtras extras) w
      | resultValue promise => (promise, w)
      end
    with
    | (Fulfilled (Ok value), w1) =>
        match resume value w1 with
        | (Fulfilled result, w2) => genLoop helpers extras result w2
        | (Rejected reason, w2) => (Throw reason, w2)
        end
    | (Fulfilled (Err error), w1) => (Throw (ResultInterruption error), w1)
    | (Rejected reason, w1) => (Throw reason, w1)
    end.
Proof.
  simpl genLoop. unfold bind at 1. rewrite await_yielded.
  destruct (match yielded with
            | flowValue flow => run flow (withExtras extras) w
            | resultValue promise => (promise, w)
            end) as [[[value|error]|reason] w1]; reflexivity.
Qed.

(** [run] of a flow built by [gen]: the generator is made, started, and
    the loop takes over. *)
Lemma run_gen_eq (l : positive) (f : Extras -> M (Async (IteratorResult V A)))
    (args : RunArgs) (w : World) :
  run (gen l f) args w
  = settle
      match f {| context := contextOf args |}
              (setContext l (contextOf args) w) with
      | (Normal generator, w1) =>
          match generator w1 with
          | (Fulfilled result, w2) =>
              genLoop helpers {| context := contextOf args |} result w2
          | (Rejected reason, w2) => (Throw reason, w2)
          end
      | (Throw reason, w1) => (Throw reason, w1)
      end.
Proof.
  unfold gen. rewrite run_async_builder. f_equal.
  unfold bind at 1. destruct (f _ _) as [[generator|reason] w1]; [|reflexivity].
  unfold bind at 1. unfold call.
  destruct (generator w1) as [[result|reason] w2]; reflexivity.
Qed.

Variables (l : positive) (args : RunArgs) (w : World).

Let extras : Extras := {| context := contextOf args |}.
Let w0 : World := setContext l (contextOf args) w.

(** The loop of [gen] forgets the yields that succeeded. *)
Lemma genLoop_resumed (result result' : IteratorResult V A)
    (w1 w' : World) :
  resumed extras result w1 result' w' ->
  genLoop helpers extras result w1 = genLoop helpers extras result' w'.
Proof.
  induction 1 as [|yielded resume value next result' w1 w2 w3 w'
                    Hyielded Hresume _ IH]; [reflexivity|].
  rewrite genLoop_yield. unfold yieldedOutcome in Hyielded.
  rewrite Hyielded, Hresume. exact IH.
Qed.

(** [gen] stops at the first failure that the generator yields, at
    whatever yield it comes, a failing result or a flow whose evaluation
    fails: after any number of yields that succeeded, the flow fails with
    the error of the one that does not, in the world that yield left, and
    the generator is not resumed. *)
Theorem gen_stops_at_first_failure
    (f : Extras -> M (Async (IteratorResult V A)))
    (generator : Async (IteratorResult V A))
    (first : IteratorResult V A)
    (yielded : PolymorphicResult V)
    (resume : V -> Async (IteratorResult V A))
    (error : FailureT) (w1 w2 w3 w4 : World) :
  f extras w0 = (Normal generator, w1) ->
  generator w1 = (Fulfilled first, w2) ->
  resumed extras first w2 (iteratorYield yielded resume) w3 ->
  yieldedOutcome extras yielded w3 = (Fulfilled (Err error), w4) ->
  run (gen l f) args w = (Fulfilled (Err error), w4).
Proof.
  intros Hf Hfirst Hresumed Hfails. rewrite run_gen_eq. fold extras w0.
  rewrite Hf, Hfirst, (genLoop_resumed _ _ _ _ Hresumed), genLoop_yield.
  unfold yieldedOutcome in Hfails. rewrite Hfails. reflexivity.
Qed.

End Gen.

Section GenLaws.

Context {P : Params} {V : Type}.

Import ResultFlow.

Variables (this : ResultFlow V) (l : positive) (args : RunArgs) (w : World).

Let extras : Extras := {| context := contextOf args |}.
Let w0 : World := setContext l (contextOf args) w.

(** A generator that does [return yield* flow] gives the flow back:
    [gen] evaluates the flow once, with the extras of the run, and its
    outcome is the outcome. *)
Theorem gen_of_one_flow :
  run (gen l (fun _ => ret (async (ret (iterator this))))) args w
  = run this (withExtras extras) w0.
Proof.
  rewrite run_gen_eq. fold extras w0. unfold ret at 1. unfold async at 1.
  unfold ret at 1. unfold iterator. rewrite genLoop_yield.
  pose proof (run_never_interrupted this (withExtras extras) w0) as Hnever.
  destruct (run this (withExtras extras) w0) as [[[v|e]|[e|x]] w1];
    try reflexivity.
  now destruct (Hnever w1 e).
Qed.

(** A generator that yields the receiver, calls [f] on the value it gets
    back, yields what [f] returns and returns the value it gets back for
    that, is [chain(f)] on the receiver. *)
Theorem gen_of_two_steps_is_chain
    (f : V -> Extras -> M (PolymorphicResult V)) :
  run (gen l (fun ex =>
         ret (async (ret
           (iteratorYield (flowValue this) (fun value =>
              async (next <- f value ex ;;
                     ret (iteratorYield next (fun value' =>
                            async (ret (iteratorDone value')))))))))))
      args w
  = run (chain l f this) args w.
Proof.
  rewrite run_gen_eq. unfold chain. rewrite run_async_builder.
  fold extras w0. unfold ret at 1. unfold async at 1. unfold ret at 1.
  rewrite genLoop_yield, bind_tryTo_run.
  destruct (run this (withExtras extras) w0) as [[[v|e]|[e|x]] w1];
    try reflexivity.
  f_equal.
  destruct (f v extras w1) as [[next|reason] w2] eqn:Hf.
  - unfold async at 1. unfold bind at 1. rewrite Hf. unfold ret at 1.
    rewrite genLoop_yield. unfold bind at 1. rewrite Hf, await_yielded.
    destruct (match next with
              | flowValue flow => run flow (withExtras extras) w2
              | resultValue promise => (promise, w2)
              end) as [[[v2|e2]|reason] w3]; reflexivity.
  - unfold async at 1. unfold bind at 1. rewrite Hf.
    unfold bind at 1. rewrite Hf. reflexivity.
Qed.

End GenLaws.

Section GenWitness.

#[local] Existing Instance Probe.params.

Import ResultFlow Probe.

(** A generator that yields a step that succeeds, then a step that fails,
    and logs each time it is resumed. *)
Let stopping : Extras -> M (Async (IteratorResult nat nat)) :=
  fun _ =>
    ret (async (
      do logs (called "started") ;;
      produced <- step (Ok 1%nat) tt ;;
      ret (iteratorYield (resultValue produced) (fun _ =>
             async (
               do logs (called "resumed once") ;;
               produced' <- step (Err "not-found"%string) tt ;;
               ret (iteratorYield (resultValue produced') (fun value =>
                      async (do logs (called "resumed twice") ;;
                             ret (iteratorDone value))))))))).

Lemma gen_stops_at_first_failure_witness :
  exists w' : World,
    run (gen 1%positive stopping) noArgs initial
    = (Fulfilled (Err "not-found"%string), w')
    /\ events (user w') = [called "started"; called "resumed once"]
    /\ stepCalls (user w') = 2%nat.
Proof.
  eexists. split; [|shelve].
  eapply (gen_stops_at_first_failure 1%positive noArgs initial stopping).
  - reflexivity.
  - reflexivity.
  - eapply resumed_next; [reflexivity|reflexivity|apply resumed_here].
  - reflexivity.
  Unshelve. split; reflexivity.
Defined.

End GenWitness.

(** ** [tryTo] and its [mapError] option *)

Section TryTo.

Context {P : Params} {A : Type}.

Import ResultFlow.

(** Whatever the options, [await tryTo(...)] returns the value of a success
    and rethrows what rejected the promise, and the mapper is not called in
    either case.  On a failure the mapper runs, and if it throws, what it
    threw is thrown in place of the interruption signal. *)
Theorem tryTo_calls_mapper_on_failure_only
    (options : option TryToOptions) (w : World) :
  (forall value : A,
      (unwrapped <- tryTo helpers A (Fulfilled (Ok value)) options ;;
       await unwrapped) w = (Normal value, w))
  /\ (forall reason : Thrown,
        (unwrapped <- tryTo helpers A (Rejected reason) options ;;
         await unwrapped) w = (Throw reason, w))
  /\ (forall (mapper : FailureT -> M FailureT) (error : FailureT)
             (reason : Thrown) (w' : World),
        options ≫= mapErrorOption = Some mapper ->
        mapper error w = (Throw reason, w') ->
        (unwrapped <- tryTo helpers A (Fulfilled (Err error)) options ;;
         await unwrapped) w = (Throw reason, w')).
Proof.
  split; [|split].
  - intros value. unfold helpers, tryTo.
    destruct (options ≫= mapErrorOption); reflexivity.
  - intros reason. unfold helpers, tryTo.
    destruct (options ≫= mapErrorOption); reflexivity.
  - intros mapper error reason w' Hsome Hthrows.
    unfold helpers, tryTo. rewrite Hsome.
    unfold bind, call, PromiseHelpers.mapError, async, await, mapErr, then_.
    simpl. unfold bind. rewrite Hthrows. reflexivity.
Qed.

End TryTo.

Section TryToWitness.

#[local] Existing Instance Probe.params.

Import ResultFlow Probe.

Let throwingMapper : option TryToOptions :=
  Some {| mapErrorOption := Some (fun _ => throw (Fault "mapper broke"%string)) |}.

Lemma tryTo_calls_mapper_on_failure_only_witness :
  (unwrapped <- tryTo helpers nat (Fulfilled (Err "not-found"%string))
                  throwingMapper ;;
   await unwrapped) initial
  = (Throw (Fault "mapper broke"%string), initial)
  /\ (unwrapped <- tryTo helpers nat (Fulfilled (Ok 3%nat)) throwingMapper ;;
      await unwrapped) initial
     = (Normal 3%nat, initial).
Proof.
  destruct (tryTo_calls_mapper_on_failure_only (A := nat) throwingMapper
              initial) as (Hsuccess & _ & Hthrows).
  split.
  - eapply Hthrows; reflexivity.
  - apply Hsuccess.
Defined.

End TryToWitness.

(** ** More on the delay strategy *)

Section MoreDelayStrategy.

Import Delay.

(** In what follows the delays are whole numbers of milliseconds, as in the
    embedding.  Where the source would compute [0 * Infinity], that is for
    a base of [0] and [2 ** (attempt - 1)] beyond the doubles, the
    statements stop at the last attempt for which it does not. *)

(** For a base that is not negative the delay never decreases from one
    attempt to a later one, with or without a maximum. *)
Theorem calculateDelay_never_decreases (strategy : DelayStrategy) (n m : Z) :
  1 <= n <= m ->
  match strategy with
  | immediate => True
  | exponentialBackoff base _ => 0 <= base /\ (base = 0 -> m <= 1024)
  end ->
  calculateDelay strategy n <= calculateDelay strategy m.
Proof.
  intros Hnm Hbase. apply calculateDelay_monotone; [exact Hnm|].
  destruct strategy as [|base cap]; [exact I|]. apply Hbase.
Qed.

(** Without a maximum each delay is twice the one before. *)
Theorem calculateDelay_doubles (base attempt : Z) :
  1 <= attempt ->
  (base = 0 -> attempt + 1 <= 1024) ->
  calculateDelay (exponentialBackoff base None) (attempt + 1)
  = 2 * calculateDelay (exponentialBackoff base None) attempt.
Proof.
  intros Hattempt _. simpl. unfold calculateExponentialDelay.
  replace (attempt + 1 - 1) with (Z.succ (attempt - 1)) by lia.
  rewrite Z.pow_succ_r by lia. lia.
Qed.

(** With a base of at least one millisecond and a positive maximum the
    delays never exceed the maximum and are equal to it from some attempt
    on: at the latest from attempt [max + 1]. *)
Theorem calculateDelay_reaches_cap (base cap attempt : Z) :
  1 <= base -> 0 < cap ->
  calculateDelay (exponentialBackoff base (Some cap)) attempt <= cap
  /\ (cap + 1 <= attempt ->
      calculateDelay (exponentialBackoff base (Some cap)) attempt = cap).
Proof.
  intros Hbase Hcap. simpl. unfold calculateExponentialDelay, truthy.
  destruct (Z.eqb_spec cap 0) as [Hzero|_]; [lia|]. simpl.
  split; [lia|]. intros Hlate.
  assert (cap < 2 ^ cap) by (apply Z.pow_gt_lin_r; lia).
  assert (2 ^ cap <= 2 ^ (attempt - 1)) by (apply Z.pow_le_mono_r; lia).
  nia.
Qed.

End MoreDelayStrategy.

Section DelayWitnesses.

Import Delay.

Lemma calculateDelay_never_decreases_witness :
  calculateDelay (exponentialBackoff 100 (Some 500)) 3
  <= calculateDelay (exponentialBackoff 100 (Some 500)) 4.
Proof.
  apply calculateDelay_never_decreases; simpl; lia.
Defined.

Lemma calculateDelay_nonnegative_witness :
  0 <= calculateDelay (exponentialBackoff 100 (Some 500)) 2.
Proof.
  apply calculateDelay_nonnegative; simpl; lia.
Defined.


Lemma calculateDelay_doubles_witness :
  calculateDelay (exponentialBackoff 100 None) (3 + 1)
  = 2 * calculateDelay (exponentialBackoff 100 None) 3.
Proof.
  apply calculateDelay_doubles; lia.
Defined.

Lemma calculateDelay_reaches_cap_witness :
  calculateDelay (exponentialBackoff 100 (Some 500)) 501 <= 500
  /\ (500 + 1 <= 501 ->
      calculateDelay (exponentialBackoff 100 (Some 500)) 501 = 500).
Proof.
  apply calculateDelay_reaches_cap; lia.
Defined.

End DelayWitnesses.
